(** * experiments/s_test_speedup.py: the s_test timing harness

    A shallow embedding of [one_experiment] and [main], and the properties
    of the driver: mode filter, example quota, grid sweep, artifact names
    and the loader handed to each estimator call.

    The collaborators that live outside the file (model and dataset
    construction, the correctness evaluation, the estimator, the timer and
    the remote copy) are the fields of the class [Collaborators]; every
    call to one of them is recorded, in program order, in the [trace] of
    the [World].  The two [print] calls only write to stdout and are left
    out.  Exceptions raised inside a collaborator are not modelled: the
    only exception the file itself raises is the [ValueError] of the mode
    check. *)

From Stdlib Require Import ZArith String Ascii Bool Lia.
From Stdlib Require Import DecimalString DecimalZ DecimalPos.
From Stdlib Require Import List Sorted.
Import ListNotations.
Local Open Scope Z_scope.

(** ** Python primitives used by the script *)

Module Py.

(** The objects a correctness evaluation may hand back.  [True] and
    [False] are the two objects of type [bool]; a NumPy boolean, an
    integer or [None] is a different object even when it is truthy or
    falsy. *)
Inductive object : Type :=
| PyBool (b : bool)
| PyNone
| PyInt (z : Z)
| NpBool (b : bool).

(** [v is True] and [v is False]: object identity. *)
Definition is_True (v : object) : bool :=
  match v with PyBool true => true | _ => false end.

Definition is_False (v : object) : bool :=
  match v with PyBool false => true | _ => false end.

Definition is_bool (v : object) : bool :=
  match v with PyBool _ => true | _ => false end.

(** [range(start, stop, step)] for a positive step. *)
Definition range3 (start stop step : Z) : list Z :=
  map (fun i => start + step * Z.of_nat i)
      (seq 0 (Z.to_nat ((stop - start + step - 1) / step))).

(** [range(stop)]. *)
Definition range (stop : Z) : list Z := range3 0 stop 1.

(** [str(z)], which is also what [f"{z}"] inserts for an int. *)
Definition str (z : Z) : string := NilZero.string_of_int (Z.to_int z).

(** [x in xs] for a list of strings. *)
Definition str_in (x : string) (xs : list string) : bool :=
  existsb (String.eqb x) xs.

End Py.

(** ** Data model *)

Inductive Dataset : Type := train_dataset | eval_dataset.

Inductive Device : Type := cuda.

Definition LoaderId := nat.

Inductive Exn : Type := ValueError (msg : string).

Inductive Ctl : Type := Continue | Break.

(** [f"stest.{mode}.{num_examples_to_test}.{test_index}.{num_samples}.{batch_size}.{repetition}.pth"] *)
Definition file_name (mode : string)
  (num_examples_to_test test_index num_samples batch_size repetition : Z)
  : string :=
  ("stest." ++ mode ++ "." ++ Py.str num_examples_to_test ++ "."
   ++ Py.str test_index ++ "." ++ Py.str num_samples ++ "."
   ++ Py.str batch_size ++ "." ++ Py.str repetition ++ ".pth")%string.

(** [range(700, 1300 + 1, 100)] *)
Definition sample_counts : list Z := Py.range3 700 (1300 + 1) 100.

Definition batch_sizes : list Z := [1; 2; 4; 8; 16; 32; 64; 128].

(** The types the script only passes around: the [test_inputs] dict, a
    tensor, a timer reading and a float hyper-parameter. *)
Class Domain : Type := {
  Inputs : Type;
  Tensor : Type;
  Time : Type;
  Hparam : Type
}.

Section Model.

Context `{D : Domain}.

(** The arguments of one [compute_s_test] call. *)
Record STestArgs : Type := {
  arg_n_gpu : Z;
  arg_device : Device;
  arg_test_inputs : Inputs;
  arg_train_data_loaders : list LoaderId;
  arg_params_filter : list string;
  arg_weight_decay : Hparam;
  arg_weight_decay_ignores : list string;
  arg_damp : Hparam;
  arg_scale : Hparam;
  arg_num_samples : Z
}.

(** The [outputs] dict built for one grid point. *)
Record Outputs : Type := {
  test_index : Z;
  num_samples : Z;
  batch_size : Z;
  repetition : Z;
  s_test : list Tensor;
  time_elapsed : Time;
  correct : Py.object
}.

Inductive Event : Type :=
| EvCreateTokenizerAndModel (path : string)
| EvCreateDatasets (task_name : string)
| EvGetDataloader (l : LoaderId) (dataset : Dataset) (bs : Z) (random : bool)
| EvTrainer
| EvModelCuda
| EvNextBatch (index : Z)
| EvIsPredictionCorrect (index : Z) (inputs : Inputs)
| EvToDevice (index : Z)
| EvComputeSTest (args : STestArgs)
| EvSave (name : string) (object_to_save : Outputs).

(** What the run has done so far, and the next loader object to be
    allocated. *)
Record World : Type := {
  trace : list Event;
  next_loader : LoaderId
}.

Definition init_world : World := {| trace := []; next_loader := 0%nat |}.

(** The collaborators defined outside the file. *)
Class Collaborators : Type := {
  MNLI_MODEL_PATH : string;
  WEIGHT_DECAY : Hparam;
  (** [constants.DEFAULT_INFLUENCE_HPARAMS["mnli"]["mnli"]] at ["damp"]
      and ["scale"] *)
  DEFAULT_DAMP : Hparam;
  DEFAULT_SCALE : Hparam;
  (** [model.named_parameters()]: name and [requires_grad] *)
  named_parameters : list (string * bool);
  (** the batches [eval_instance_data_loader] yields (batch size 1, not
      shuffled), in order *)
  eval_batches : list Inputs;
  is_prediction_correct : Inputs -> Py.object;
  (** [test_inputs[k] = v.to(torch.device("cuda"))] for every tensor *)
  to_cuda : Inputs -> Inputs;
  compute_s_test : STestArgs -> list Tensor;
  cpu : Tensor -> Tensor;
  (** [timer.elapsed] of the timed block of a grid point *)
  timer_elapsed : Z -> Z -> Z -> Z -> Time
}.

Context `{E : Collaborators}.

(** *** State monad over the world *)

Definition M (A : Type) : Type := World -> A * World.

Definition ret {A} (a : A) : M A := fun w => (a, w).

Definition bind {A B} (m : M A) (k : A -> M B) : M B :=
  fun w => let (a, w') := m w in k a w'.

Notation "x <- m ;; k" := (bind m (fun x => k))
  (at level 61, m at next level, right associativity).
Notation "m ;; k" := (bind m (fun _ => k))
  (at level 61, right associativity).

Definition emit (e : Event) : M unit :=
  fun w => (tt, {| trace := trace w ++ [e]; next_loader := next_loader w |}).

(** [for x in xs: s = body(x, s)] *)
Fixpoint for_each {A S} (xs : list A) (body : A -> S -> M S) (s : S) : M S :=
  match xs with
  | [] => ret s
  | x :: rest => s' <- body x s ;; for_each rest body s'
  end.

(** [for i, x in enumerate(xs)] with a body that may [break]; [continue]
    and falling off the end of the body both go on with the next item.
    Fetching an item is an event of its own. *)
Fixpoint for_enumerate {A S} (body : Z -> A -> S -> M (Ctl * S))
    (i : Z) (xs : list A) (s : S) : M S :=
  match xs with
  | [] => ret s
  | x :: rest =>
      emit (EvNextBatch i) ;;
      r <- body i x s ;;
      match fst r with
      | Break => ret (snd r)
      | Continue => for_enumerate body (i + 1) rest (snd r)
      end
  end.

(** *** Calls to the collaborators *)

Definition create_tokenizer_and_model (path : string) : M unit :=
  emit (EvCreateTokenizerAndModel path).

Definition create_datasets (task_name : string) : M unit :=
  emit (EvCreateDatasets task_name).

(** Modelled from the spec: [misc_utils.get_dataloader] is defined outside
    the file.  Every call builds a new loader object over the dataset
    ("the loader is rebuilt per invocation"), here the next unused
    [LoaderId]. *)
Definition get_dataloader (dataset : Dataset) (bs : Z) (random : bool)
  : M LoaderId :=
  fun w =>
    (next_loader w,
     {| trace := trace w ++ [EvGetDataloader (next_loader w) dataset bs random];
        next_loader := S (next_loader w) |}).

Definition call_compute_s_test (args : STestArgs) : M (list Tensor) :=
  emit (EvComputeSTest args) ;; ret (compute_s_test args).

Definition save_and_mirror_scp_to_remote (object_to_save : Outputs)
    (name : string) : M unit :=
  emit (EvSave name object_to_save).

(** *** [one_experiment] *)

(** [[n for n, p in model.named_parameters() if not p.requires_grad]] *)
Definition frozen_parameters : list string :=
  map fst (filter (fun np => negb (snd np)) named_parameters).

Definition one_experiment (dataset : Dataset) (test_inputs : Inputs)
    (bs : Z) (random : bool) (n_gpu : Z) (device : Device)
    (damp scale : Hparam) (n_samples : Z) : M (list Tensor) :=
  let params_filter := frozen_parameters in
  let weight_decay_ignores :=
    ["bias"%string; "LayerNorm.weight"%string] ++ frozen_parameters in
  batch_train_data_loader <- get_dataloader dataset bs random ;;
  s <- call_compute_s_test
         {| arg_n_gpu := n_gpu;
            arg_device := device;
            arg_test_inputs := test_inputs;
            arg_train_data_loaders := [batch_train_data_loader];
            arg_params_filter := params_filter;
            arg_weight_decay := WEIGHT_DECAY;
            arg_weight_decay_ignores := weight_decay_ignores;
            arg_damp := damp;
            arg_scale := scale;
            arg_num_samples := n_samples |} ;;
  ret (map cpu s).

(** *** [main] *)

(** The two local variables the loop over the evaluation set updates. *)
Record Locals : Type := {
  num_examples_tested : Z;
  output_collections : list Outputs
}.

(** The body of the innermost loop. *)
Definition grid_point (mode : string) (num_examples_to_test : Z)
    (index : Z) (test_inputs : Inputs) (prediction_is_correct : Py.object)
    (n_samples bs rep : Z) (outs : list Outputs) : M (list Outputs) :=
  s <- one_experiment train_dataset test_inputs bs true 1 cuda
         DEFAULT_DAMP DEFAULT_SCALE n_samples ;;
  let outputs :=
    {| test_index := index;
       num_samples := n_samples;
       batch_size := bs;
       repetition := rep;
       s_test := s;
       time_elapsed := timer_elapsed index n_samples bs rep;
       correct := prediction_is_correct |} in
  let outs := outs ++ [outputs] in
  save_and_mirror_scp_to_remote outputs
    (file_name mode num_examples_to_test index n_samples bs rep) ;;
  ret outs.

(** The three nested loops over the grid. *)
Definition sweep (mode : string) (num_examples_to_test num_repetitions : Z)
    (index : Z) (test_inputs : Inputs) (prediction_is_correct : Py.object)
    (outs : list Outputs) : M (list Outputs) :=
  for_each sample_counts (fun n_samples =>
    for_each batch_sizes (fun bs =>
      for_each (Py.range num_repetitions) (fun rep =>
        grid_point mode num_examples_to_test index test_inputs
          prediction_is_correct n_samples bs rep))) outs.

(** The body of the loop over the evaluation set. *)
Definition loop_body (mode : string)
    (num_examples_to_test num_repetitions : Z)
    (index : Z) (test_inputs : Inputs) (st : Locals) : M (Ctl * Locals) :=
  if num_examples_tested st >=? num_examples_to_test then ret (Break, st)
  else
    emit (EvIsPredictionCorrect index test_inputs) ;;
    let prediction_is_correct := is_prediction_correct test_inputs in
    if (mode =? "only-correct")%string && Py.is_False prediction_is_correct
    then ret (Continue, st)
    else
      if (mode =? "only-incorrect")%string && Py.is_True prediction_is_correct
      then ret (Continue, st)
      else
        emit (EvToDevice index) ;;
        let test_inputs := to_cuda test_inputs in
        outs <- sweep mode num_examples_to_test num_repetitions index
                  test_inputs prediction_is_correct (output_collections st) ;;
        ret (Continue,
             {| num_examples_tested := num_examples_tested st + 1;
                output_collections := outs |}).

Definition main (mode : string) (num_examples_to_test num_repetitions : Z)
  : M (Exn + list Outputs) :=
  if negb (Py.str_in mode ["only-correct"; "only-incorrect"]%string)
  then ret (inl (ValueError ("Unrecognized mode " ++ mode)%string))
  else
    create_tokenizer_and_model MNLI_MODEL_PATH ;;
    create_datasets "mnli" ;;
    eval_instance_data_loader <- get_dataloader eval_dataset 1 false ;;
    emit EvTrainer ;;
    emit EvModelCuda ;;
    st <- for_enumerate (loop_body mode num_examples_to_test num_repetitions)
            0 eval_batches
            {| num_examples_tested := 0; output_collections := [] |} ;;
    ret (inr (output_collections st)).

(** A run of the script in a new process. *)
Definition run_main (mode : string) (num_examples_to_test num_repetitions : Z)
  : (Exn + list Outputs) * World :=
  main mode num_examples_to_test num_repetitions init_world.

End Model.

(** ** What a run is observed by *)

Section Observations.

Context {D : Domain} {E : @Collaborators D}.

(** The mode filter of [main]: the two [continue] tests. *)
Definition skips (mode : string) (p : Py.object) : bool :=
  ((mode =? "only-correct")%string && Py.is_False p)
  || ((mode =? "only-incorrect")%string && Py.is_True p).

Definition valid_mode (mode : string) : Prop :=
  mode = "only-correct"%string \/ mode = "only-incorrect"%string.

(** The grid points of one example, in loop order. *)
Definition grid (num_repetitions : Z) : list (Z * Z * Z) :=
  flat_map (fun n_samples =>
    flat_map (fun bs =>
      map (fun rep => (n_samples, bs, rep)) (Py.range num_repetitions))
      batch_sizes)
    sample_counts.

Definition point_of (o : Outputs) : Z * Z * Z :=
  (num_samples o, batch_size o, repetition o).

Definition key_of (o : Outputs) : Z * (Z * Z * Z) :=
  (test_index o, point_of o).

(** The records of one evaluation example. *)
Definition records_of (index : Z) (outs : list Outputs) : list Outputs :=
  filter (fun o => test_index o =? index) outs.

(** Lexicographic order on (num_samples, batch_size, repetition). *)
Definition lex_lt (a b : Z * Z * Z) : Prop :=
  let '(n1, b1, r1) := a in
  let '(n2, b2, r2) := b in
  n1 < n2 \/ (n1 = n2 /\ (b1 < b2 \/ (b1 = b2 /\ r1 < r2))).

(** The name [main] gives the artifact of a record. *)
Definition name_of (mode : string) (num_examples_to_test : Z) (o : Outputs)
  : string :=
  file_name mode num_examples_to_test
    (test_index o) (num_samples o) (batch_size o) (repetition o).

Fixpoint pick {A B} (f : A -> option B) (xs : list A) : list B :=
  match xs with
  | [] => []
  | x :: rest =>
      match f x with
      | Some b => b :: pick f rest
      | None => pick f rest
      end
  end.

(** Persistence calls of a trace: name and object. *)
Definition saved (tr : list Event) : list (string * Outputs) :=
  pick (fun e => match e with EvSave n o => Some (n, o) | _ => None end) tr.

(** Examples whose grid sweep was started. *)
Definition swept_indices (tr : list Event) : list Z :=
  pick (fun e => match e with EvToDevice i => Some i | _ => None end) tr.

(** Examples whose correctness was evaluated. *)
Definition evaluated_indices (tr : list Event) : list Z :=
  pick (fun e =>
          match e with EvIsPredictionCorrect i _ => Some i | _ => None end) tr.

(** Estimator calls of a trace. *)
Definition estimator_calls (tr : list Event) : list STestArgs :=
  pick (fun e => match e with EvComputeSTest a => Some a | _ => None end) tr.

(** The loader objects an event creates or is handed. *)
Definition loaders_of (e : Event) : list LoaderId :=
  match e with
  | EvGetDataloader l _ _ _ => [l]
  | EvComputeSTest a => arg_train_data_loaders a
  | _ => []
  end.

Fixpoint enumerate_from {A} (i : Z) (xs : list A) : list (Z * A) :=
  match xs with
  | [] => []
  | x :: rest => (i, x) :: enumerate_from (i + 1) rest
  end.

Definition passes (mode : string) (ix : Z * Inputs) : bool :=
  negb (skips mode (is_prediction_correct (snd ix))).

(** The evaluation examples the mode filter lets through, with their
    index. *)
Definition passing (mode : string) : list (Z * Inputs) :=
  filter (passes mode) (enumerate_from 0 eval_batches).

(** *** The events of a run, written out *)

Definition args_at (l : LoaderId) (x : Inputs) (n_samples : Z) : STestArgs :=
  {| arg_n_gpu := 1;
     arg_device := cuda;
     arg_test_inputs := x;
     arg_train_data_loaders := [l];
     arg_params_filter := frozen_parameters;
     arg_weight_decay := WEIGHT_DECAY;
     arg_weight_decay_ignores :=
       ["bias"%string; "LayerNorm.weight"%string] ++ frozen_parameters;
     arg_damp := DEFAULT_DAMP;
     arg_scale := DEFAULT_SCALE;
     arg_num_samples := n_samples |}.

Definition record_at (l : LoaderId) (i : Z) (x : Inputs) (p : Py.object)
    (pt : Z * Z * Z) : Outputs :=
  let '(n_samples, bs, rep) := pt in
  {| test_index := i;
     num_samples := n_samples;
     batch_size := bs;
     repetition := rep;
     s_test := map cpu (compute_s_test (args_at l x n_samples));
     time_elapsed := timer_elapsed i n_samples bs rep;
     correct := p |}.

Definition point_events (mode : string) (n : Z) (l : LoaderId) (i : Z)
    (x : Inputs) (p : Py.object) (pt : Z * Z * Z) : list Event :=
  [EvGetDataloader l train_dataset (snd (fst pt)) true;
   EvComputeSTest (args_at l x (fst (fst pt)));
   EvSave (name_of mode n (record_at l i x p pt)) (record_at l i x p pt)].

Fixpoint sweep_records (l : LoaderId) (i : Z) (x : Inputs) (p : Py.object)
    (pts : list (Z * Z * Z)) : list Outputs :=
  match pts with
  | [] => []
  | pt :: rest => record_at l i x p pt :: sweep_records (S l) i x p rest
  end.

Fixpoint sweep_events (mode : string) (n : Z) (l : LoaderId) (i : Z)
    (x : Inputs) (p : Py.object) (pts : list (Z * Z * Z)) : list Event :=
  match pts with
  | [] => []
  | pt :: rest =>
      point_events mode n l i x p pt ++ sweep_events mode n (S l) i x p rest
  end.

Fixpoint loop_events (mode : string) (n reps : Z) (l : LoaderId)
    (tested i : Z) (xs : list Inputs) : list Event :=
  match xs with
  | [] => []
  | x :: rest =>
      EvNextBatch i ::
      if tested >=? n then []
      else
        EvIsPredictionCorrect i x ::
        if skips mode (is_prediction_correct x)
        then loop_events mode n reps l tested (i + 1) rest
        else
          EvToDevice i ::
          sweep_events mode n l i (to_cuda x) (is_prediction_correct x)
            (grid reps)
          ++ loop_events mode n reps (l + length (grid reps))%nat
               (tested + 1) (i + 1) rest
  end.

Fixpoint loop_tested (mode : string) (n tested : Z) (xs : list Inputs) : Z :=
  match xs with
  | [] => tested
  | x :: rest =>
      if tested >=? n then tested
      else if skips mode (is_prediction_correct x)
           then loop_tested mode n tested rest
           else loop_tested mode n (tested + 1) rest
  end.

(** The records appended by the loop: the objects it saved, in order. *)
Definition loop_records (mode : string) (n reps : Z) (l : LoaderId)
    (tested i : Z) (xs : list Inputs) : list Outputs :=
  map snd (saved (loop_events mode n reps l tested i xs)).

(** Every estimator call comes right after the [get_dataloader] call that
    built the one loader it is handed, over the training set and
    shuffled, and that loader appears nowhere earlier in the run. *)
Definition fresh_loader_calls (tr : list Event) : Prop :=
  forall pre args post,
    tr = pre ++ EvComputeSTest args :: post ->
    exists pre' l bs,
      pre = pre' ++ [EvGetDataloader l train_dataset bs true]
      /\ arg_train_data_loaders args = [l]
      /\ In bs batch_sizes
      /\ forall e, In e pre' -> ~ In l (loaders_of e).

(** All loader objects of a trace were allocated below [l]. *)
Definition loaders_below (tr : list Event) (l : LoaderId) : Prop :=
  forall e l', In e tr -> In l' (loaders_of e) -> (l' < l)%nat.

(** The list a run returns, empty when it raised. *)
Definition returned (r : (Exn + list Outputs) * World) : list Outputs :=
  match fst r with
  | inr outs => outs
  | inl _ => []
  end.

(** The examples that have a record in a list, each once. *)
Definition contributors (outs : list Outputs) : list Z :=
  nodup Z.eq_dec (map test_index outs).

Definition setup_events : list Event :=
  [EvCreateTokenizerAndModel MNLI_MODEL_PATH;
   EvCreateDatasets "mnli";
   EvGetDataloader 0%nat eval_dataset 1 false;
   EvTrainer;
   EvModelCuda].

Fixpoint has_dot (s : string) : bool :=
  match s with
  | EmptyString => false
  | String c s' => (c =? ".")%char || has_dot s'
  end.

(** Examples fetched from the evaluation loader. *)
Definition fetched_indices (tr : list Event) : list Z :=
  pick (fun e => match e with EvNextBatch i => Some i | _ => None end) tr.

(** Correctness evaluations: the index and the inputs handed over. *)
Definition evaluations (tr : list Event) : list (Z * Inputs) :=
  pick (fun e =>
          match e with
          | EvIsPredictionCorrect i x => Some (i, x)
          | _ => None
          end) tr.

(** Order on (test_index, (num_samples, batch_size, repetition)). *)
Definition key_lt (a b : Z * (Z * Z * Z)) : Prop :=
  fst a < fst b \/ (fst a = fst b /\ lex_lt (snd a) (snd b)).

(** The calls [main] makes before its loop. *)
Definition is_setup_event (e : Event) : bool :=
  match e with
  | EvCreateTokenizerAndModel _ => true
  | EvCreateDatasets _ => true
  | EvTrainer => true
  | EvModelCuda => true
  | EvGetDataloader _ eval_dataset _ _ => true
  | _ => false
  end.

(** Every save comes right after the estimator call whose output, moved
    to the host, is the [s_test] of the saved object. *)
Definition saves_follow_calls (tr : list Event) : Prop :=
  forall pre name o post,
    tr = pre ++ EvSave name o :: post ->
    exists pre' a,
      pre = pre' ++ [EvComputeSTest a]
      /\ s_test o = map cpu (compute_s_test a)
      /\ num_samples o = arg_num_samples a.

(** What [main] fixes in every estimator call it makes. *)
Definition fixed_call (a : STestArgs) : Prop :=
  arg_n_gpu a = 1
  /\ arg_device a = cuda
  /\ arg_damp a = DEFAULT_DAMP
  /\ arg_scale a = DEFAULT_SCALE
  /\ arg_weight_decay a = WEIGHT_DECAY
  /\ arg_params_filter a
     = map fst (filter (fun np => negb (snd np)) named_parameters)
  /\ arg_weight_decay_ignores a
     = "bias"%string :: "LayerNorm.weight"%string :: arg_params_filter a
  /\ In (arg_num_samples a) [700; 800; 900; 1000; 1100; 1200; 1300].

End Observations.

(** ** A small concrete setting *)

Definition demo_domain : Domain :=
  {| Inputs := Py.object; Tensor := Z; Time := Z; Hparam := Z |}.

(** An evaluation example stands for the result of its correctness
    evaluation. *)
Definition demo (evals : list Py.object) : @Collaborators demo_domain :=
  @Build_Collaborators demo_domain
    "mnli-model" 0 0 0
    [("bias"%string, true); ("embeddings"%string, false)]
    evals
    (fun x => x)
    (fun x => x)
    (fun a => [@arg_num_samples demo_domain a])
    (fun t => t)
    (fun i n b r => 0).

(** ** Facts about the Python primitives *)

Lemma range_spec (n : Z) : Py.range n = map Z.of_nat (seq 0 (Z.to_nat n)).
Proof.
  unfold Py.range, Py.range3.
  replace ((n - 0 + 1 - 1) / 1) with n by (rewrite Z.div_1_r; lia).
  apply map_ext; intros i; lia.
Qed.

Lemma length_range (n : Z) : length (Py.range n) = Z.to_nat n.
Proof. rewrite range_spec, length_map, length_seq; reflexivity. Qed.

Lemma in_range (n r : Z) : In r (Py.range n) <-> 0 <= r < n.
Proof.
  rewrite range_spec, in_map_iff; split.
  - intros (k & <- & Hk); apply in_seq in Hk; lia.
  - intros Hr; exists (Z.to_nat r); split; [lia | apply in_seq; lia].
Qed.

Lemma seq_sorted (len start : nat) :
  StronglySorted Z.lt (map Z.of_nat (seq start len)).
Proof.
  revert start; induction len as [|len IH]; intros start; simpl.
  - constructor.
  - constructor; [apply IH|].
    apply Forall_forall; intros z Hz.
    apply in_map_iff in Hz; destruct Hz as (k & <- & Hk).
    apply in_seq in Hk; lia.
Qed.

Lemma range_sorted (n : Z) : StronglySorted Z.lt (Py.range n).
Proof. rewrite range_spec; apply seq_sorted. Qed.

Lemma sample_counts_eq :
  sample_counts = [700; 800; 900; 1000; 1100; 1200; 1300].
Proof. reflexivity. Qed.

Lemma to_int_proper (z : Z) :
  Z.to_int z <> Decimal.Pos Decimal.Nil /\ Z.to_int z <> Decimal.Neg Decimal.Nil.
Proof.
  destruct z as [|p|p]; simpl; split; try discriminate;
    intros H; injection H as H; exact (Unsigned.to_uint_nonnil p H).
Qed.

Lemma str_inj (z z' : Z) : Py.str z = Py.str z' -> z = z'.
Proof.
  unfold Py.str; intros H.
  apply (f_equal NilZero.int_of_string) in H.
  destruct (to_int_proper z) as [Hp Hn], (to_int_proper z') as [Hp' Hn'].
  rewrite !NilZero.isi in H by assumption.
  injection H as H; apply DecimalZ.to_int_inj, H.
Qed.

(** ** Artifact names can be read back *)

Lemma uint_no_dot (d : Decimal.uint) :
  has_dot (NilEmpty.string_of_uint d) = false.
Proof. induction d; simpl; assumption || reflexivity. Qed.

Lemma str_no_dot (z : Z) : has_dot (Py.str z) = false.
Proof.
  assert (Hu : forall d, has_dot (NilZero.string_of_uint d) = false).
  { intros d; destruct d; try reflexivity; apply (uint_no_dot (_ d)). }
  unfold Py.str; destruct (Z.to_int z); simpl; apply Hu.
Qed.

(** A dot-free field followed by a dot can be read back in one way. *)
Lemma field_split (a a' r r' : string) :
  has_dot a = false -> has_dot a' = false ->
  (a ++ String "." r = a' ++ String "." r')%string -> a = a' /\ r = r'.
Proof.
  revert a'; induction a as [|c a IH]; intros [|c' a'] Ha Ha' H; simpl in *.
  - injection H as H; auto.
  - injection H as Hc _; subst c'; discriminate.
  - injection H as Hc _; subst c; discriminate.
  - injection H as Hc H; subst c'.
    apply orb_false_iff in Ha, Ha'.
    destruct (IH a' (proj2 Ha) (proj2 Ha') H) as [-> ->]; auto.
Qed.

Lemma num_field (z z' : Z) (r r' : string) :
  (Py.str z ++ String "." r = Py.str z' ++ String "." r')%string ->
  z = z' /\ r = r'.
Proof.
  intros H; apply field_split in H; try apply str_no_dot.
  destruct H as [H ->]; split; [apply str_inj, H | reflexivity].
Qed.

Lemma file_name_inj (m m' : string) (n n' i i' ns ns' bs bs' rep rep' : Z) :
  has_dot m = false -> has_dot m' = false ->
  file_name m n i ns bs rep = file_name m' n' i' ns' bs' rep' ->
  m = m' /\ n = n' /\ i = i' /\ ns = ns' /\ bs = bs' /\ rep = rep'.
Proof.
  intros Hm Hm' H; unfold file_name in H.
  cbn [append] in H; injection H as H.
  apply field_split in H; try assumption; destruct H as [-> H].
  apply num_field in H; destruct H as [-> H].
  apply num_field in H; destruct H as [-> H].
  apply num_field in H; destruct H as [-> H].
  apply num_field in H; destruct H as [-> H].
  apply num_field in H; destruct H as [-> _].
  repeat split.
Qed.

Lemma valid_mode_no_dot (mode : string) :
  valid_mode mode -> has_dot mode = false.
Proof. intros [-> | ->]; reflexivity. Qed.

(** ** The loops, run *)

Section Runs.

Context {D : Domain} {E : @Collaborators D}.

Lemma pick_app {A B} (f : A -> option B) (xs ys : list A) :
  pick f (xs ++ ys) = pick f xs ++ pick f ys.
Proof.
  induction xs as [|x xs IH]; simpl; [reflexivity|].
  destruct (f x); simpl; rewrite IH; reflexivity.
Qed.

Lemma in_pick {A B} (f : A -> option B) (xs : list A) (b : B) :
  In b (pick f xs) <-> exists a, In a xs /\ f a = Some b.
Proof.
  induction xs as [|x xs IH]; simpl.
  - split; [intros [] | intros (a & [] & _)].
  - destruct (f x) as [b'|] eqn:Hx; simpl; rewrite ?IH; split.
    + intros [<- | (a & Ha & Hf)]; [exists x | exists a]; auto.
    + intros (a & [<- | Ha] & Hf); [left; congruence | right; exists a; auto].
    + intros (a & Ha & Hf); exists a; auto.
    + intros (a & [<- | Ha] & Hf); [congruence | exists a; auto].
Qed.

Lemma for_each_ext {A S} (body body' : A -> S -> M S) (xs : list A) :
  (forall a s w, body a s w = body' a s w) ->
  forall s w, for_each xs body s w = for_each xs body' s w.
Proof.
  intros Hb; induction xs as [|x xs IH]; intros s w; simpl; [reflexivity|].
  unfold bind; rewrite Hb; destruct (body' x s w) as [s' w']; apply IH.
Qed.

Lemma for_each_app {A S} (body : A -> S -> M S) (xs ys : list A) (s : S)
    (w : World) :
  for_each (xs ++ ys) body s w
  = let (s', w') := for_each xs body s w in for_each ys body s' w'.
Proof.
  revert s w; induction xs as [|x xs IH]; intros s w; simpl.
  - reflexivity.
  - unfold bind; destruct (body x s w) as [s' w']; apply IH.
Qed.

Lemma for_each_map {A B S} (g : A -> B) (body : B -> S -> M S) (xs : list A)
    (s : S) (w : World) :
  for_each (map g xs) body s w = for_each xs (fun a => body (g a)) s w.
Proof.
  revert s w; induction xs as [|x xs IH]; intros s w; simpl; [reflexivity|].
  unfold bind; destruct (body (g x) s w) as [s' w']; apply IH.
Qed.

Lemma for_each_flat_map {A B S} (f : A -> list B) (body : B -> S -> M S)
    (xs : list A) (s : S) (w : World) :
  for_each (flat_map f xs) body s w
  = for_each xs (fun a => for_each (f a) body) s w.
Proof.
  revert s w; induction xs as [|x xs IH]; intros s w; simpl; [reflexivity|].
  rewrite for_each_app; unfold bind.
  destruct (for_each (f x) body s w) as [s' w']; apply IH.
Qed.

(** The three nested loops visit [grid] from left to right. *)
Lemma sweep_grid (mode : string) (n reps i : Z) (x : Inputs) (p : Py.object)
    (outs : list Outputs) (w : World) :
  sweep mode n reps i x p outs w
  = for_each (grid reps)
      (fun pt => grid_point mode n i x p (fst (fst pt)) (snd (fst pt)) (snd pt))
      outs w.
Proof.
  unfold sweep, grid.
  rewrite for_each_flat_map; apply for_each_ext; intros ns s1 w1.
  rewrite for_each_flat_map; apply for_each_ext; intros bs s2 w2.
  rewrite for_each_map; reflexivity.
Qed.

Lemma grid_point_run (mode : string) (n i : Z) (x : Inputs) (p : Py.object)
    (pt : Z * Z * Z) (outs : list Outputs) (w : World) :
  grid_point mode n i x p (fst (fst pt)) (snd (fst pt)) (snd pt) outs w
  = (outs ++ [record_at (next_loader w) i x p pt],
     {| trace := trace w ++ point_events mode n (next_loader w) i x p pt;
        next_loader := S (next_loader w) |}).
Proof.
  destruct pt as [[ns bs] rep]; destruct w as [tr l].
  unfold grid_point, one_experiment, get_dataloader, call_compute_s_test,
    save_and_mirror_scp_to_remote, emit, bind, ret, point_events; simpl.
  rewrite <- !app_assoc; reflexivity.
Qed.

Lemma grid_points_run (mode : string) (n i : Z) (x : Inputs) (p : Py.object)
    (pts : list (Z * Z * Z)) (outs : list Outputs) (w : World) :
  for_each pts
    (fun pt => grid_point mode n i x p (fst (fst pt)) (snd (fst pt)) (snd pt))
    outs w
  = (outs ++ sweep_records (next_loader w) i x p pts,
     {| trace := trace w ++ sweep_events mode n (next_loader w) i x p pts;
        next_loader := (next_loader w + length pts)%nat |}).
Proof.
  revert outs w; induction pts as [|pt pts IH]; intros outs w.
  - destruct w; simpl; unfold ret; rewrite !app_nil_r, Nat.add_0_r; reflexivity.
  - cbn [for_each]; unfold bind; rewrite grid_point_run, IH; simpl.
    rewrite <- !app_assoc, Nat.add_succ_r; reflexivity.
Qed.

Lemma sweep_run (mode : string) (n reps i : Z) (x : Inputs) (p : Py.object)
    (outs : list Outputs) (w : World) :
  sweep mode n reps i x p outs w
  = (outs ++ sweep_records (next_loader w) i x p (grid reps),
     {| trace := trace w ++ sweep_events mode n (next_loader w) i x p (grid reps);
        next_loader := (next_loader w + length (grid reps))%nat |}).
Proof. rewrite sweep_grid; apply grid_points_run. Qed.

(** *** What a sweep leaves in the trace *)

Lemma saved_app (a b : list Event) : saved (a ++ b) = saved a ++ saved b.
Proof. apply pick_app. Qed.

Lemma swept_app (a b : list Event) :
  swept_indices (a ++ b) = swept_indices a ++ swept_indices b.
Proof. apply pick_app. Qed.

Lemma evaluated_app (a b : list Event) :
  evaluated_indices (a ++ b) = evaluated_indices a ++ evaluated_indices b.
Proof. apply pick_app. Qed.

Lemma calls_app (a b : list Event) :
  estimator_calls (a ++ b) = estimator_calls a ++ estimator_calls b.
Proof. apply pick_app. Qed.

Lemma saved_sweep (mode : string) (n : Z) (l : LoaderId) (i : Z) (x : Inputs)
    (p : Py.object) (pts : list (Z * Z * Z)) :
  saved (sweep_events mode n l i x p pts)
  = map (fun o => (name_of mode n o, o)) (sweep_records l i x p pts).
Proof.
  revert l; induction pts as [|pt pts IH]; intros l; [reflexivity|].
  cbn [sweep_events sweep_records map]; rewrite saved_app, IH; reflexivity.
Qed.

Lemma swept_sweep (mode : string) (n : Z) (l : LoaderId) (i : Z) (x : Inputs)
    (p : Py.object) (pts : list (Z * Z * Z)) :
  swept_indices (sweep_events mode n l i x p pts) = [].
Proof.
  revert l; induction pts as [|pt pts IH]; intros l; [reflexivity|].
  cbn [sweep_events]; rewrite swept_app, IH; reflexivity.
Qed.

Lemma evaluated_sweep (mode : string) (n : Z) (l : LoaderId) (i : Z)
    (x : Inputs) (p : Py.object) (pts : list (Z * Z * Z)) :
  evaluated_indices (sweep_events mode n l i x p pts) = [].
Proof.
  revert l; induction pts as [|pt pts IH]; intros l; [reflexivity|].
  cbn [sweep_events]; rewrite evaluated_app, IH; reflexivity.
Qed.

Lemma calls_sweep (mode : string) (n : Z) (l : LoaderId) (i : Z) (x : Inputs)
    (p : Py.object) (pts : list (Z * Z * Z)) :
  length (estimator_calls (sweep_events mode n l i x p pts)) = length pts.
Proof.
  revert l; induction pts as [|pt pts IH]; intros l; [reflexivity|].
  cbn [sweep_events]; rewrite calls_app, length_app, IH; reflexivity.
Qed.

Lemma sweep_records_points (l : LoaderId) (i : Z) (x : Inputs) (p : Py.object)
    (pts : list (Z * Z * Z)) :
  map point_of (sweep_records l i x p pts) = pts.
Proof.
  revert l; induction pts as [|[[ns bs] rep] pts IH]; intros l; [reflexivity|].
  simpl; f_equal; apply IH.
Qed.

Lemma sweep_records_fields (l : LoaderId) (i : Z) (x : Inputs) (p : Py.object)
    (pts : list (Z * Z * Z)) (o : Outputs) :
  In o (sweep_records l i x p pts) -> test_index o = i /\ correct o = p.
Proof.
  revert l; induction pts as [|[[ns bs] rep] pts IH]; intros l; simpl.
  - intros [].
  - intros [<- | Ho]; [split; reflexivity | apply (IH _ Ho)].
Qed.

(** *** One pass of the loop over the evaluation set *)

Lemma loop_body_break (mode : string) (n reps i : Z) (x : Inputs)
    (st : Locals) (w : World) :
  (num_examples_tested st >=? n) = true ->
  loop_body mode n reps i x st w = ((Break, st), w).
Proof. intros Hq; unfold loop_body; rewrite Hq; reflexivity. Qed.

Lemma loop_body_skip (mode : string) (n reps i : Z) (x : Inputs)
    (st : Locals) (w : World) :
  (num_examples_tested st >=? n) = false ->
  skips mode (is_prediction_correct x) = true ->
  loop_body mode n reps i x st w
  = ((Continue, st),
     {| trace := trace w ++ [EvIsPredictionCorrect i x];
        next_loader := next_loader w |}).
Proof.
  intros Hq Hs; unfold loop_body, skips in *; rewrite Hq.
  unfold bind, emit, ret.
  destruct ((mode =? "only-correct")%string
            && Py.is_False (is_prediction_correct x)); [reflexivity|].
  simpl in Hs; rewrite Hs; reflexivity.
Qed.

Lemma loop_body_sweep (mode : string) (n reps i : Z) (x : Inputs)
    (st : Locals) (w : World) :
  (num_examples_tested st >=? n) = false ->
  skips mode (is_prediction_correct x) = false ->
  loop_body mode n reps i x st w
  = ((Continue,
      {| num_examples_tested := num_examples_tested st + 1;
         output_collections :=
           output_collections st
           ++ sweep_records (next_loader w) i (to_cuda x)
                (is_prediction_correct x) (grid reps) |}),
     {| trace :=
          trace w
          ++ EvIsPredictionCorrect i x :: EvToDevice i
             :: sweep_events mode n (next_loader w) i (to_cuda x)
                  (is_prediction_correct x) (grid reps);
        next_loader := (next_loader w + length (grid reps))%nat |}).
Proof.
  intros Hq Hs; unfold loop_body, skips in *; rewrite Hq.
  apply orb_false_iff in Hs; destruct Hs as [H1 H2]; rewrite H1, H2.
  unfold bind, emit, ret; rewrite sweep_run; simpl.
  rewrite <- !app_assoc; reflexivity.
Qed.

Lemma loop_run (mode : string) (n reps : Z) (xs : list Inputs) :
  forall (i : Z) (st : Locals) (w : World),
    for_enumerate (loop_body mode n reps) i xs st w
    = ({| num_examples_tested :=
            loop_tested mode n (num_examples_tested st) xs;
          output_collections :=
            output_collections st
            ++ loop_records mode n reps (next_loader w)
                 (num_examples_tested st) i xs |},
       {| trace :=
            trace w
            ++ loop_events mode n reps (next_loader w)
                 (num_examples_tested st) i xs;
          next_loader :=
            (next_loader w
             + length (estimator_calls
                         (loop_events mode n reps (next_loader w)
                            (num_examples_tested st) i xs)))%nat |}).
Proof.
  unfold loop_records; induction xs as [|x rest IH]; intros i st w.
  - destruct st, w; simpl; unfold ret.
    rewrite !app_nil_r, Nat.add_0_r; reflexivity.
  - cbn [for_enumerate loop_events loop_tested]; unfold bind at 1 2.
    unfold emit at 1.
    destruct (num_examples_tested st >=? n) eqn:Hq.
    + rewrite loop_body_break by exact Hq; destruct st; simpl; unfold ret.
      rewrite app_nil_r, Nat.add_0_r; reflexivity.
    + destruct (skips mode (is_prediction_correct x)) eqn:Hs.
      * rewrite loop_body_skip by assumption; cbn [fst snd].
        rewrite IH; cbn [trace next_loader].
        rewrite <- !app_assoc; reflexivity.
      * rewrite loop_body_sweep by assumption; cbn [fst snd].
        rewrite IH.
        cbn [trace next_loader num_examples_tested output_collections].
        f_equal.
        -- f_equal.
           change (EvNextBatch i :: EvIsPredictionCorrect i x :: EvToDevice i :: ?t)
             with ([EvNextBatch i; EvIsPredictionCorrect i x; EvToDevice i] ++ t).
           rewrite !saved_app, saved_sweep, !map_app, map_map; simpl.
           rewrite map_id, <- app_assoc; reflexivity.
        -- f_equal.
           ++ rewrite <- !app_assoc; reflexivity.
           ++ change (EvNextBatch i :: EvIsPredictionCorrect i x :: EvToDevice i :: ?t)
                with ([EvNextBatch i; EvIsPredictionCorrect i x; EvToDevice i] ++ t).
              rewrite !calls_app, !length_app, calls_sweep; simpl; lia.
Qed.

Lemma mode_check (mode : string) :
  Py.str_in mode ["only-correct"; "only-incorrect"]%string = true
  <-> valid_mode mode.
Proof.
  unfold Py.str_in, valid_mode; simpl.
  rewrite !orb_true_iff, !String.eqb_eq; intuition discriminate.
Qed.

Lemma run_main_valid (mode : string) (n reps : Z) :
  valid_mode mode ->
  run_main mode n reps
  = (inr (loop_records mode n reps 1%nat 0 0 eval_batches),
     {| trace := setup_events ++ loop_events mode n reps 1%nat 0 0 eval_batches;
        next_loader :=
          (1 + length (estimator_calls
                         (loop_events mode n reps 1%nat 0 0 eval_batches)))%nat |}).
Proof.
  intros Hm; apply mode_check in Hm.
  unfold run_main, main; rewrite Hm; cbn [negb].
  unfold create_tokenizer_and_model, create_datasets, get_dataloader,
    bind, emit, init_world; cbn [trace next_loader app].
  rewrite loop_run; reflexivity.
Qed.

Lemma run_main_invalid (mode : string) (n reps : Z) :
  ~ valid_mode mode ->
  run_main mode n reps
  = (inl (ValueError ("Unrecognized mode " ++ mode)%string), init_world).
Proof.
  intros Hm; unfold run_main, main.
  destruct (Py.str_in mode _) eqn:Hin; [apply mode_check in Hin; tauto|].
  reflexivity.
Qed.

(** *** The loop, one example at a time *)

Lemma loop_records_cons (mode : string) (n reps : Z) (l : LoaderId)
    (t i : Z) (x : Inputs) (rest : list Inputs) :
  loop_records mode n reps l t i (x :: rest)
  = if t >=? n then []
    else if skips mode (is_prediction_correct x)
         then loop_records mode n reps l t (i + 1) rest
         else sweep_records l i (to_cuda x) (is_prediction_correct x)
                (grid reps)
              ++ loop_records mode n reps (l + length (grid reps))%nat
                   (t + 1) (i + 1) rest.
Proof.
  unfold loop_records; cbn [loop_events].
  destruct (t >=? n); [reflexivity|].
  destruct (skips mode (is_prediction_correct x)); [reflexivity|].
  change (EvNextBatch i :: EvIsPredictionCorrect i x :: EvToDevice i :: ?e)
    with ([EvNextBatch i; EvIsPredictionCorrect i x; EvToDevice i] ++ e).
  rewrite !saved_app, saved_sweep, !map_app, map_map; simpl.
  rewrite map_id; reflexivity.
Qed.

Lemma swept_loop_cons (mode : string) (n reps : Z) (l : LoaderId)
    (t i : Z) (x : Inputs) (rest : list Inputs) :
  swept_indices (loop_events mode n reps l t i (x :: rest))
  = if t >=? n then []
    else if skips mode (is_prediction_correct x)
         then swept_indices (loop_events mode n reps l t (i + 1) rest)
         else i :: swept_indices
                     (loop_events mode n reps (l + length (grid reps))%nat
                        (t + 1) (i + 1) rest).
Proof.
  cbn [loop_events].
  destruct (t >=? n); [reflexivity|].
  destruct (skips mode (is_prediction_correct x)); [reflexivity|].
  change (EvNextBatch i :: EvIsPredictionCorrect i x :: EvToDevice i :: ?e)
    with ([EvNextBatch i; EvIsPredictionCorrect i x; EvToDevice i] ++ e).
  rewrite !swept_app, swept_sweep; reflexivity.
Qed.

Lemma evaluated_loop_cons (mode : string) (n reps : Z) (l : LoaderId)
    (t i : Z) (x : Inputs) (rest : list Inputs) :
  evaluated_indices (loop_events mode n reps l t i (x :: rest))
  = if t >=? n then []
    else i :: if skips mode (is_prediction_correct x)
              then evaluated_indices (loop_events mode n reps l t (i + 1) rest)
              else evaluated_indices
                     (loop_events mode n reps (l + length (grid reps))%nat
                        (t + 1) (i + 1) rest).
Proof.
  cbn [loop_events].
  destruct (t >=? n); [reflexivity|].
  destruct (skips mode (is_prediction_correct x)); [reflexivity|].
  change (EvNextBatch i :: EvIsPredictionCorrect i x :: EvToDevice i :: ?e)
    with ([EvNextBatch i; EvIsPredictionCorrect i x; EvToDevice i] ++ e).
  rewrite !evaluated_app, evaluated_sweep; reflexivity.
Qed.

Ltac loop_cases t n mode x :=
  let Hq := fresh "Hq" in
  let Hs := fresh "Hs" in
  destruct (t >=? n) eqn:Hq;
  [| destruct (skips mode (is_prediction_correct x)) eqn:Hs].

(** Every persisted object is stored under the name built from its own
    fields. *)
Lemma saved_loop (mode : string) (n reps : Z) (xs : list Inputs) :
  forall (l : LoaderId) (t i : Z),
    saved (loop_events mode n reps l t i xs)
    = map (fun o => (name_of mode n o, o)) (loop_records mode n reps l t i xs).
Proof.
  induction xs as [|x rest IH]; intros l t i; [reflexivity|].
  rewrite loop_records_cons; cbn [loop_events].
  loop_cases t n mode x; [reflexivity | apply IH |].
  change (EvNextBatch i :: EvIsPredictionCorrect i x :: EvToDevice i :: ?e)
    with ([EvNextBatch i; EvIsPredictionCorrect i x; EvToDevice i] ++ e).
  rewrite !saved_app, saved_sweep, map_app, IH; reflexivity.
Qed.

(** A record belongs to an example that was swept, was built at a grid
    point, and carries the correctness value of an example the filter let
    through. *)
Lemma loop_record_origin (mode : string) (n reps : Z) (xs : list Inputs)
    (o : Outputs) :
  forall (l : LoaderId) (t i : Z),
    In o (loop_records mode n reps l t i xs) ->
    In (test_index o) (swept_indices (loop_events mode n reps l t i xs))
    /\ In (point_of o) (grid reps)
    /\ exists x, In x xs /\ correct o = is_prediction_correct x
                 /\ skips mode (is_prediction_correct x) = false.
Proof.
  induction xs as [|x rest IH]; intros l t i; [intros []|].
  rewrite loop_records_cons, swept_loop_cons.
  loop_cases t n mode x.
  - intros [].
  - intros Ho; destruct (IH _ _ _ Ho) as (H1 & H2 & x' & Hx' & H3).
    repeat split; auto; exists x'; simpl; auto.
  - rewrite in_app_iff; intros [Ho | Ho].
    + destruct (sweep_records_fields _ _ _ _ _ _ Ho) as [Hi Hc].
      repeat split.
      * left; symmetry; exact Hi.
      * rewrite <- (sweep_records_points l i (to_cuda x)
                      (is_prediction_correct x) (grid reps)).
        apply in_map, Ho.
      * exists x; simpl; rewrite Hc; auto.
    + destruct (IH _ _ _ Ho) as (H1 & H2 & x' & Hx' & H3).
      repeat split; [right; exact H1 | exact H2 | exists x'; simpl; auto].
Qed.

Lemma swept_lower (mode : string) (n reps : Z) (xs : list Inputs) (j : Z) :
  forall (l : LoaderId) (t i : Z),
    In j (swept_indices (loop_events mode n reps l t i xs)) -> i <= j.
Proof.
  induction xs as [|x rest IH]; intros l t i; [intros []|].
  rewrite swept_loop_cons; loop_cases t n mode x.
  - intros [].
  - intros Hj; apply IH in Hj; lia.
  - intros [<- | Hj]; [lia | apply IH in Hj; lia].
Qed.

Lemma records_of_app (j : Z) (a b : list Outputs) :
  records_of j (a ++ b) = records_of j a ++ records_of j b.
Proof. apply filter_app. Qed.

Lemma records_of_all (j : Z) (a : list Outputs) :
  (forall o, In o a -> test_index o = j) -> records_of j a = a.
Proof.
  induction a as [|o a IH]; intros H; simpl; [reflexivity|].
  rewrite (H o (or_introl eq_refl)), Z.eqb_refl, IH; [reflexivity|].
  intros o' Ho'; apply H; right; exact Ho'.
Qed.

Lemma records_of_none (j : Z) (a : list Outputs) :
  (forall o, In o a -> test_index o <> j) -> records_of j a = [].
Proof.
  induction a as [|o a IH]; intros H; simpl; [reflexivity|].
  destruct (Z.eqb_spec (test_index o) j) as [Heq | _].
  - exfalso; apply (H o (or_introl eq_refl) Heq).
  - apply IH; intros o' Ho'; apply H; right; exact Ho'.
Qed.

(** The records of a swept example are its grid points, in grid order. *)
Lemma swept_records (mode : string) (n reps : Z) (xs : list Inputs) (j : Z) :
  forall (l : LoaderId) (t i : Z),
    In j (swept_indices (loop_events mode n reps l t i xs)) ->
    map point_of (records_of j (loop_records mode n reps l t i xs))
    = grid reps.
Proof.
  induction xs as [|x rest IH]; intros l t i; [intros []|].
  rewrite loop_records_cons, swept_loop_cons; loop_cases t n mode x.
  - intros [].
  - apply IH.
  - intros Hj; rewrite records_of_app, map_app.
    destruct (Z.eq_dec i j) as [-> | Hne].
    + rewrite records_of_all, sweep_records_points.
      * rewrite records_of_none; [apply app_nil_r|].
        intros o Ho Heq.
        apply loop_record_origin in Ho; destruct Ho as [Ho _].
        apply swept_lower in Ho; lia.
      * intros o Ho; apply (sweep_records_fields _ _ _ _ _ _ Ho).
    + destruct Hj as [Hj | Hj]; [contradiction|].
      rewrite records_of_none, (IH _ _ _ Hj); [reflexivity|].
      intros o Ho Heq.
      apply sweep_records_fields in Ho; destruct Ho as [Ho _]; congruence.
Qed.

(** *** The grid *)

Lemma in_grid (reps ns bs rep : Z) :
  In (ns, bs, rep) (grid reps)
  <-> In ns sample_counts /\ In bs batch_sizes /\ 0 <= rep < reps.
Proof.
  unfold grid; rewrite in_flat_map; split.
  - intros (ns' & Hns & H); apply in_flat_map in H.
    destruct H as (bs' & Hbs & H); apply in_map_iff in H.
    destruct H as (rep' & Heq & Hrep); injection Heq as <- <- <-.
    apply in_range in Hrep; auto.
  - intros (Hns & Hbs & Hrep); exists ns; split; [exact Hns|].
    apply in_flat_map; exists bs; split; [exact Hbs|].
    apply in_map, in_range, Hrep.
Qed.

Lemma length_grid (reps : Z) :
  length (grid reps) = (7 * 8 * Z.to_nat reps)%nat.
Proof.
  unfold grid; rewrite sample_counts_eq; unfold batch_sizes.
  cbn [flat_map]; rewrite !length_app, !length_map, length_range.
  simpl; lia.
Qed.

Lemma sorted_app {A} (R : A -> A -> Prop) (a b : list A) :
  StronglySorted R a -> StronglySorted R b ->
  (forall x y, In x a -> In y b -> R x y) ->
  StronglySorted R (a ++ b).
Proof.
  induction a as [|x a IH]; intros Ha Hb Hab; simpl; [exact Hb|].
  inversion Ha as [|? ? Ha' Hx]; subst; constructor.
  - apply IH; auto; intros; apply Hab; simpl; auto.
  - apply Forall_app; split; [exact Hx|].
    apply Forall_forall; intros y Hy; apply Hab; simpl; auto.
Qed.

Lemma sorted_map {A B} (RA : A -> A -> Prop) (RB : B -> B -> Prop)
    (g : A -> B) (xs : list A) :
  (forall x y, RA x y -> RB (g x) (g y)) ->
  StronglySorted RA xs -> StronglySorted RB (map g xs).
Proof.
  intros Hg; induction 1 as [|x xs Hs IH Hx]; simpl; constructor; auto.
  rewrite Forall_forall in *; intros b Hb.
  apply in_map_iff in Hb; destruct Hb as (y & <- & Hy); auto.
Qed.

Lemma sorted_flat_map {A B} (RA : A -> A -> Prop) (RB : B -> B -> Prop)
    (f : A -> list B) (xs : list A) :
  (forall x, StronglySorted RB (f x)) ->
  (forall x y b c, RA x y -> In b (f x) -> In c (f y) -> RB b c) ->
  StronglySorted RA xs -> StronglySorted RB (flat_map f xs).
Proof.
  intros Hf Hxy; induction 1 as [|x xs Hs IH Hx]; simpl; [constructor|].
  apply sorted_app; auto.
  intros b c Hb Hc; apply in_flat_map in Hc; destruct Hc as (y & Hy & Hc).
  rewrite Forall_forall in Hx; eauto.
Qed.

Lemma sorted_nodup {A} (R : A -> A -> Prop) (xs : list A) :
  (forall x, ~ R x x) -> StronglySorted R xs -> NoDup xs.
Proof.
  intros Hirr; induction 1 as [|x xs Hs IH Hx]; constructor; auto.
  intros Hin; rewrite Forall_forall in Hx; apply (Hirr x), Hx, Hin.
Qed.

Lemma sample_counts_sorted : StronglySorted Z.lt sample_counts.
Proof.
  rewrite sample_counts_eq.
  repeat (constructor; [|repeat (constructor; try lia)]); constructor.
Qed.

Lemma batch_sizes_sorted : StronglySorted Z.lt batch_sizes.
Proof.
  unfold batch_sizes.
  repeat (constructor; [|repeat (constructor; try lia)]); constructor.
Qed.

Lemma lex_lt_irrefl (a : Z * Z * Z) : ~ lex_lt a a.
Proof. destruct a as [[x y] z]; unfold lex_lt; lia. Qed.

Lemma grid_sorted (reps : Z) : StronglySorted lex_lt (grid reps).
Proof.
  unfold grid.
  apply sorted_flat_map with (RA := Z.lt); [| | apply sample_counts_sorted].
  - intros ns.
    apply sorted_flat_map with (RA := Z.lt); [| | apply batch_sizes_sorted].
    + intros bs; apply sorted_map with (RA := Z.lt); [|apply range_sorted].
      intros r r' Hr; unfold lex_lt; lia.
    + intros bs bs' b c Hlt Hb Hc.
      apply in_map_iff in Hb, Hc.
      destruct Hb as (r & <- & _), Hc as (r' & <- & _); unfold lex_lt; lia.
  - intros ns ns' b c Hlt Hb Hc.
    apply in_flat_map in Hb, Hc.
    destruct Hb as (bs & _ & Hb), Hc as (bs' & _ & Hc).
    apply in_map_iff in Hb, Hc.
    destruct Hb as (r & <- & _), Hc as (r' & <- & _); unfold lex_lt; lia.
Qed.

Lemma grid_nodup (reps : Z) : NoDup (grid reps).
Proof. apply (sorted_nodup lex_lt); [apply lex_lt_irrefl | apply grid_sorted]. Qed.

(** *** Which examples are swept *)

Lemma in_enumerate_from {A} (xs : list A) (j : Z) (x : A) :
  forall i,
    In (j, x) (enumerate_from i xs)
    <-> exists k, j = i + Z.of_nat k /\ nth_error xs k = Some x.
Proof.
  induction xs as [|y xs IH]; intros i; simpl.
  - split; [intros [] | intros ([|k] & _ & H); discriminate].
  - rewrite IH; split.
    + intros [Heq | (k & -> & Hk)].
      * injection Heq as <- <-; exists 0%nat; split; [lia | reflexivity].
      * exists (S k); split; [lia | exact Hk].
    + intros ([|k] & -> & Hk); simpl in Hk.
      * injection Hk as <-; left; f_equal; lia.
      * right; exists k; split; [lia | exact Hk].
Qed.

Lemma swept_loop (mode : string) (n reps : Z) (xs : list Inputs) :
  forall (l : LoaderId) (t i : Z),
    swept_indices (loop_events mode n reps l t i xs)
    = map fst (firstn (Z.to_nat (n - t))
                 (filter (passes mode) (enumerate_from i xs))).
Proof.
  induction xs as [|x rest IH]; intros l t i.
  - simpl; rewrite firstn_nil; reflexivity.
  - rewrite swept_loop_cons; cbn [enumerate_from filter].
    unfold passes at 1; cbn [snd].
    destruct (Z.geb_spec t n) as [Hq | Hq].
    + replace (Z.to_nat (n - t)) with 0%nat by lia; reflexivity.
    + destruct (skips mode (is_prediction_correct x)); cbn [negb].
      * apply IH.
      * replace (Z.to_nat (n - t)) with (S (Z.to_nat (n - (t + 1)))) by lia.
        cbn [firstn map fst]; f_equal; apply IH.
Qed.

(** An example is evaluated only while fewer than [n] examples that pass
    the filter have come before it. *)
Lemma evaluated_before_quota (mode : string) (n reps : Z) (xs : list Inputs)
    (j : Z) :
  forall (l : LoaderId) (t i : Z),
    In j (evaluated_indices (loop_events mode n reps l t i xs)) ->
    t + Z.of_nat (length (filter (fun ix => fst ix <? j)
                            (filter (passes mode) (enumerate_from i xs)))) < n.
Proof.
  assert (Hlow : forall (ys : list Inputs) i,
             i >= j ->
             filter (fun ix : Z * Inputs => fst ix <? j)
               (filter (passes mode) (enumerate_from i ys)) = []).
  { induction ys as [|y ys IHy]; intros i Hi; [reflexivity|].
    cbn [enumerate_from filter].
    destruct (passes mode (i, y)); cbn [filter fst].
    - destruct (Z.ltb_spec i j); [lia | apply IHy; lia].
    - apply IHy; lia. }
  induction xs as [|x rest IH]; intros l t i; [intros []|].
  rewrite evaluated_loop_cons; cbn [enumerate_from filter].
  unfold passes at 1; cbn [snd].
  destruct (Z.geb_spec t n) as [Hq | Hq]; [intros []|].
  intros [<- | Hj].
  - destruct (skips mode (is_prediction_correct x)); cbn [negb filter fst].
    + rewrite Hlow by lia; simpl; lia.
    + rewrite Z.ltb_irrefl, Hlow by lia; simpl; lia.
  - destruct (skips mode (is_prediction_correct x)); cbn [negb filter fst].
    + apply IH in Hj; exact Hj.
    + apply IH in Hj.
      destruct (i <? j); cbn [length]; lia.
Qed.

(** *** No grid point is recorded twice *)

Lemma nodup_map_by {K V T} (name : T -> V) (key : T -> K) (items : list T) :
  NoDup (map key items) ->
  (forall a b, In a items -> In b items -> name a = name b -> key a = key b) ->
  NoDup (map name items).
Proof.
  induction items as [|a items IH]; intros Hkey Hinj; simpl; [constructor|].
  inversion Hkey as [|? ? Ha Hkey']; subst; constructor.
  - intros Hin; apply Ha.
    apply in_map_iff in Hin; destruct Hin as (b & Hb & Hin).
    apply in_map_iff; exists b; split; [|exact Hin].
    apply Hinj; simpl; auto.
  - apply IH; [exact Hkey'|].
    intros b c Hb Hc; apply Hinj; simpl; auto.
Qed.

Lemma sweep_records_keys (l : LoaderId) (i : Z) (x : Inputs) (p : Py.object)
    (pts : list (Z * Z * Z)) :
  map key_of (sweep_records l i x p pts) = map (pair i) pts.
Proof.
  revert l; induction pts as [|[[ns bs] rep] pts IH]; intros l; [reflexivity|].
  simpl; f_equal; apply IH.
Qed.

Lemma loop_keys_nodup (mode : string) (n reps : Z) (xs : list Inputs) :
  forall (l : LoaderId) (t i : Z),
    NoDup (map key_of (loop_records mode n reps l t i xs)).
Proof.
  induction xs as [|x rest IH]; intros l t i; [constructor|].
  rewrite loop_records_cons; loop_cases t n mode x.
  - constructor.
  - apply IH.
  - rewrite map_app; apply NoDup_app; [| apply IH |].
    + rewrite sweep_records_keys.
      apply (nodup_map_by _ (fun pt => pt)); [rewrite map_id; apply grid_nodup|].
      intros a b _ _ Hab; congruence.
    + intros k Hk Hk'.
      apply in_map_iff in Hk, Hk'.
      destruct Hk as (o & <- & Ho), Hk' as (o' & Heq & Ho').
      apply sweep_records_fields in Ho; destruct Ho as [Ho _].
      apply loop_record_origin in Ho'; destruct Ho' as [Ho' _].
      apply swept_lower in Ho'.
      unfold key_of in Heq; injection Heq as Heq _; lia.
Qed.

Lemma name_of_inj (mode : string) (n : Z) (o o' : Outputs) :
  valid_mode mode ->
  name_of mode n o = name_of mode n o' -> key_of o = key_of o'.
Proof.
  intros Hm H; apply valid_mode_no_dot in Hm.
  apply file_name_inj in H; try exact Hm.
  destruct H as (_ & _ & Hi & Hns & Hbs & Hrep).
  unfold key_of, point_of; congruence.
Qed.

(** *** Loaders *)

Lemma snoc_split {A} (tr pre post : list A) (e c : A) :
  tr ++ [e] = pre ++ c :: post ->
  (post = [] /\ tr = pre /\ e = c)
  \/ (exists post', post = post' ++ [e] /\ tr = pre ++ c :: post').
Proof.
  intros H; destruct post as [|a post].
  - apply app_inj_tail in H; left; tauto.
  - destruct (@exists_last _ (a :: post)) as (post' & z & Hz); [discriminate|].
    rewrite Hz in *; right; exists post'.
    change (pre ++ c :: post' ++ [z]) with (pre ++ (c :: post') ++ [z]) in H.
    rewrite app_assoc in H; apply app_inj_tail in H.
    destruct H as [-> ->]; auto.
Qed.

Lemma fresh_prefix (a b : list Event) :
  fresh_loader_calls (a ++ b) -> fresh_loader_calls a.
Proof.
  intros H pre args post Heq.
  apply (H pre args (post ++ b)); rewrite Heq, <- app_assoc; reflexivity.
Qed.

Lemma fresh_snoc_other (tr : list Event) (e : Event) :
  (forall a, e <> EvComputeSTest a) ->
  fresh_loader_calls tr -> fresh_loader_calls (tr ++ [e]).
Proof.
  intros He H pre args post Heq.
  apply snoc_split in Heq; destruct Heq as [(_ & _ & Hc) | (post' & _ & Htr)].
  - exfalso; apply (He args Hc).
  - apply (H pre args post' Htr).
Qed.

Lemma below_app (a b : list Event) (l : LoaderId) :
  loaders_below (a ++ b) l <-> loaders_below a l /\ loaders_below b l.
Proof.
  unfold loaders_below; split.
  - intros H; split; intros e l' He; apply H, in_app_iff; auto.
  - intros [Ha Hb] e l' He; apply in_app_iff in He; destruct He; eauto.
Qed.

Lemma below_mono (tr : list Event) (l l' : LoaderId) :
  (l <= l')%nat -> loaders_below tr l -> loaders_below tr l'.
Proof. intros Hl H e k He Hk; specialize (H e k He Hk); lia. Qed.

Lemma below_quiet (tr : list Event) (l : LoaderId) :
  (forall e, In e tr -> loaders_of e = []) -> loaders_below tr l.
Proof. intros H e l' He Hl'; rewrite (H e He) in Hl'; destruct Hl'. Qed.

Lemma fresh_point (mode : string) (n : Z) (l : LoaderId) (i : Z) (x : Inputs)
    (p : Py.object) (pt : Z * Z * Z) (tr : list Event) :
  In (snd (fst pt)) batch_sizes ->
  fresh_loader_calls tr -> loaders_below tr l ->
  fresh_loader_calls (tr ++ point_events mode n l i x p pt)
  /\ loaders_below (tr ++ point_events mode n l i x p pt) (S l).
Proof.
  intros Hbs Hf Hb; split.
  - unfold point_events.
    change (tr ++ [?g; ?c; ?s]) with (tr ++ [g] ++ [c] ++ [s]).
    rewrite !app_assoc.
    apply fresh_snoc_other; [discriminate|].
    intros pre args post Heq.
    apply snoc_split in Heq; destruct Heq as [(_ & <- & Hc) | (post' & _ & Htr)].
    + injection Hc as <-.
      exists tr, l, (snd (fst pt)); repeat split; auto.
      intros e He Hl; specialize (Hb e l He Hl); lia.
    + revert pre args post' Htr; apply fresh_snoc_other; [discriminate | exact Hf].
  - apply below_app; split; [apply (below_mono tr l); auto|].
    intros e l' He Hl'; simpl in He.
    destruct He as [<- | [<- | [<- | []]]]; simpl in Hl';
      try destruct Hl' as [<- | []]; try lia; destruct Hl'.
Qed.

Lemma fresh_sweep (mode : string) (n : Z) (i : Z) (x : Inputs) (p : Py.object)
    (pts : list (Z * Z * Z)) :
  (forall pt, In pt pts -> In (snd (fst pt)) batch_sizes) ->
  forall (l : LoaderId) (tr : list Event),
    fresh_loader_calls tr -> loaders_below tr l ->
    fresh_loader_calls (tr ++ sweep_events mode n l i x p pts)
    /\ loaders_below (tr ++ sweep_events mode n l i x p pts)
         (l + length pts)%nat.
Proof.
  induction pts as [|pt pts IH]; intros Hpts l tr Hf Hb.
  - simpl; rewrite app_nil_r, Nat.add_0_r; auto.
  - cbn [sweep_events length]; rewrite app_assoc, Nat.add_succ_r.
    destruct (fresh_point mode n l i x p pt tr) as [Hf' Hb']; auto.
    { apply Hpts; left; reflexivity. }
    apply (IH (fun q Hq => Hpts q (or_intror Hq)) (S l)); assumption.
Qed.

Lemma grid_batch_sizes (reps : Z) (pt : Z * Z * Z) :
  In pt (grid reps) -> In (snd (fst pt)) batch_sizes.
Proof. destruct pt as [[ns bs] rep]; intros H; apply in_grid in H; tauto. Qed.

Lemma fresh_loop (mode : string) (n reps : Z) (xs : list Inputs) :
  forall (l : LoaderId) (t i : Z) (tr : list Event),
    fresh_loader_calls tr -> loaders_below tr l ->
    fresh_loader_calls (tr ++ loop_events mode n reps l t i xs).
Proof.
  induction xs as [|x rest IH]; intros l t i tr Hf Hb.
  - simpl; rewrite app_nil_r; exact Hf.
  - cbn [loop_events].
    assert (Hf1 : fresh_loader_calls (tr ++ [EvNextBatch i])).
    { apply fresh_snoc_other; [discriminate | exact Hf]. }
    assert (Hb1 : loaders_below (tr ++ [EvNextBatch i]) l).
    { apply below_app; split; [exact Hb|].
      apply below_quiet; intros e [<- | []]; reflexivity. }
    loop_cases t n mode x.
    + exact Hf1.
    + change (tr ++ EvNextBatch i :: EvIsPredictionCorrect i x :: ?e)
        with (tr ++ [EvNextBatch i] ++ [EvIsPredictionCorrect i x] ++ e).
      rewrite !app_assoc; apply IH.
      * apply fresh_snoc_other; [discriminate | exact Hf1].
      * apply below_app; split; [exact Hb1|].
        apply below_quiet; intros e [<- | []]; reflexivity.
    + change (tr ++ EvNextBatch i :: EvIsPredictionCorrect i x
                 :: EvToDevice i :: ?s ++ ?e)
        with (tr ++ [EvNextBatch i] ++ [EvIsPredictionCorrect i x]
                 ++ [EvToDevice i] ++ s ++ e).
      rewrite !app_assoc.
      match goal with
      | |- fresh_loader_calls ((?pre ++ sweep_events _ _ _ _ _ _ _) ++ _) =>
          destruct (fresh_sweep mode n i (to_cuda x) (is_prediction_correct x)
                      (grid reps) (grid_batch_sizes reps) l pre)
            as [Hf2 Hb2]
      end.
      * do 2 (apply fresh_snoc_other; [discriminate|]); exact Hf1.
      * apply below_app; split; [apply below_app; split; [exact Hb1|]|];
          apply below_quiet; intros e [<- | []]; reflexivity.
      * apply IH; assumption.
Qed.

Lemma fresh_setup :
  fresh_loader_calls setup_events /\ loaders_below setup_events 1%nat.
Proof.
  split.
  - intros pre args post Heq; exfalso.
    assert (Hin : In (EvComputeSTest args) setup_events).
    { rewrite Heq; apply in_elt. }
    simpl in Hin; intuition discriminate.
  - intros e l' He Hl'; simpl in He.
    destruct He as [<- | [<- | [<- | [<- | [<- | []]]]]]; simpl in Hl';
      try destruct Hl' as [<- | []]; try lia; destruct Hl'.
Qed.

Lemma fresh_nodup (tr : list Event) :
  fresh_loader_calls tr ->
  NoDup (concat (map arg_train_data_loaders (estimator_calls tr))).
Proof.
  induction tr as [|e tr IH] using rev_ind; intros Hf; [constructor|].
  specialize (IH (fresh_prefix _ _ Hf)).
  rewrite calls_app, map_app, concat_app.
  destruct e; simpl; rewrite ?app_nil_r; try exact IH.
  destruct (Hf tr args [] eq_refl) as (pre' & l & bs & -> & Hl & _ & Hnew).
  rewrite Hl in *; apply NoDup_app; [exact IH | repeat constructor; intros [] |].
  intros k Hk [<- | []].
  rewrite calls_app in Hk; simpl in Hk; rewrite app_nil_r in Hk.
  apply in_concat in Hk; destruct Hk as (ls & Hls & Hk).
  apply in_map_iff in Hls; destruct Hls as (a & <- & Ha).
  apply in_pick in Ha; destruct Ha as (e & He & Hpick).
  destruct e; try discriminate; injection Hpick as ->.
  apply (Hnew _ He); exact Hk.
Qed.

(** *** Runs of [main] that return *)

Lemma valid_mode_dec (mode : string) : {valid_mode mode} + {~ valid_mode mode}.
Proof.
  destruct (Py.str_in mode ["only-correct"; "only-incorrect"]%string) eqn:H.
  - left; apply mode_check, H.
  - right; intros Hm; apply mode_check in Hm; congruence.
Qed.

Lemma swept_setup (tr : list Event) :
  swept_indices (setup_events ++ tr) = swept_indices tr.
Proof. rewrite swept_app; reflexivity. Qed.

Lemma saved_setup (tr : list Event) : saved (setup_events ++ tr) = saved tr.
Proof. rewrite saved_app; reflexivity. Qed.

Lemma evaluated_setup (tr : list Event) :
  evaluated_indices (setup_events ++ tr) = evaluated_indices tr.
Proof. rewrite evaluated_app; reflexivity. Qed.

Lemma calls_setup (tr : list Event) :
  estimator_calls (setup_events ++ tr) = estimator_calls tr.
Proof. rewrite calls_app; reflexivity. Qed.

Lemma length_records_of_swept (mode : string) (n reps : Z) (xs : list Inputs)
    (j : Z) (l : LoaderId) (t i : Z) :
  In j (swept_indices (loop_events mode n reps l t i xs)) ->
  Z.of_nat (length (records_of j (loop_records mode n reps l t i xs)))
  = 7 * 8 * Z.max 0 reps.
Proof.
  intros Hj.
  rewrite <- (length_map point_of), (swept_records _ _ _ _ _ _ _ _ Hj).
  rewrite length_grid; lia.
Qed.

Lemma skips_bool (mode : string) (b : bool) :
  skips mode (Py.PyBool b) = false ->
  (mode = "only-correct"%string -> b = true)
  /\ (mode = "only-incorrect"%string -> b = false).
Proof.
  intros Hs; split; intros ->; destruct b; try reflexivity; discriminate.
Qed.

Lemma in_firstn {A} (k : nat) (xs : list A) (x : A) :
  In x (firstn k xs) -> In x xs.
Proof.
  intros H; rewrite <- (firstn_skipn k xs); apply in_app_iff; left; exact H.
Qed.

Lemma swept_passes (mode : string) (n reps : Z) (xs : list Inputs) (j : Z)
    (l : LoaderId) (t i : Z) :
  In j (swept_indices (loop_events mode n reps l t i xs)) ->
  exists k x, j = i + Z.of_nat k /\ nth_error xs k = Some x
              /\ skips mode (is_prediction_correct x) = false.
Proof.
  rewrite swept_loop, in_map_iff; intros ([j' x] & <- & Hin).
  apply in_firstn, filter_In in Hin; destruct Hin as [Hin Hp].
  apply in_enumerate_from in Hin; destruct Hin as (k & -> & Hk).
  exists k, x; repeat split; auto.
  unfold passes in Hp; simpl in Hp; apply negb_true_iff, Hp.
Qed.

Lemma run_main_trace (mode : string) (n reps : Z) :
  (valid_mode mode
   /\ fst (run_main mode n reps)
      = inr (loop_records mode n reps 1%nat 0 0 eval_batches)
   /\ trace (snd (run_main mode n reps))
      = setup_events ++ loop_events mode n reps 1%nat 0 0 eval_batches)
  \/ (~ valid_mode mode
      /\ (forall outs, fst (run_main mode n reps) <> inr outs)
      /\ trace (snd (run_main mode n reps)) = []).
Proof.
  destruct (valid_mode_dec mode) as [Hm | Hm].
  - left; rewrite run_main_valid by exact Hm; auto.
  - right; rewrite run_main_invalid by exact Hm; repeat split; auto.
    intros outs; discriminate.
Qed.

Lemma length_sweep_records (l : LoaderId) (i : Z) (x : Inputs) (p : Py.object)
    (pts : list (Z * Z * Z)) :
  length (sweep_records l i x p pts) = length pts.
Proof. rewrite <- (length_map point_of), sweep_records_points; reflexivity. Qed.

Lemma calls_loop (mode : string) (n reps : Z) (xs : list Inputs) :
  forall (l : LoaderId) (t i : Z),
    length (estimator_calls (loop_events mode n reps l t i xs))
    = length (loop_records mode n reps l t i xs).
Proof.
  induction xs as [|x rest IH]; intros l t i; [reflexivity|].
  rewrite loop_records_cons; cbn [loop_events]; loop_cases t n mode x.
  - reflexivity.
  - apply IH.
  - change (EvNextBatch i :: EvIsPredictionCorrect i x :: EvToDevice i :: ?e)
      with ([EvNextBatch i; EvIsPredictionCorrect i x; EvToDevice i] ++ e).
    rewrite !calls_app, !length_app, calls_sweep, length_sweep_records, IH.
    reflexivity.
Qed.

Lemma skips_spec (mode : string) (p : Py.object) :
  skips mode p = true
  <-> (mode = "only-correct"%string /\ p = Py.PyBool false)
      \/ (mode = "only-incorrect"%string /\ p = Py.PyBool true).
Proof.
  unfold skips; rewrite orb_true_iff, !andb_true_iff, !String.eqb_eq.
  assert (HF : Py.is_False p = true <-> p = Py.PyBool false).
  { destruct p as [[|] | | |]; simpl; split; congruence. }
  assert (HT : Py.is_True p = true <-> p = Py.PyBool true).
  { destruct p as [[|] | | |]; simpl; split; congruence. }
  rewrite HF, HT; reflexivity.
Qed.

(** ** The claims *)

(** C1, amended.  A run with a valid mode returns, and for every evaluation
    example it retains (its sweep is started) the records of that example
    in the returned list are, one for one and in order, the grid points of
    the sweep: the 7 sample counts 700, 800, ..., 1300 times the 8 batch
    sizes 1, 2, ..., 128 times the repetitions 0 <= rep < num_repetitions.
    No grid point is missing or doubled, and the example has exactly
    7 * 8 * max(num_repetitions, 0) records. *)
Theorem grid_points_per_example (mode : string) (n reps : Z) :
  valid_mode mode ->
  exists outs w,
    run_main mode n reps = (inr outs, w)
    /\ forall i,
         In i (swept_indices (trace w)) ->
         map point_of (records_of i outs) = grid reps
         /\ NoDup (grid reps)
         /\ (forall ns bs rep,
               In (ns, bs, rep) (grid reps)
               <-> In ns [700; 800; 900; 1000; 1100; 1200; 1300]
                   /\ In bs [1; 2; 4; 8; 16; 32; 64; 128]
                   /\ 0 <= rep < reps)
         /\ Z.of_nat (length (records_of i outs)) = 7 * 8 * Z.max 0 reps.
Proof.
  intros Hm; eexists; eexists; split; [apply run_main_valid, Hm|].
  cbn [trace]; intros i Hi; rewrite swept_setup in Hi.
  split; [|split; [|split]].
  - apply (swept_records _ _ _ _ _ _ _ _ Hi).
  - apply grid_nodup.
  - intros ns bs rep; exact (in_grid reps ns bs rep).
  - apply (length_records_of_swept _ _ _ _ _ _ _ _ Hi).
Qed.

(** C2, amended.  When the correctness evaluation hands back Python
    booleans, a run
    with mode "only-correct" returns a list in which every record has
    [correct] equal to True, and a run with mode "only-incorrect" returns a
    list in which every record has [correct] equal to False. *)
Theorem mode_filter_correct_flag (mode : string) (n reps : Z) :
  (forall x, In x eval_batches -> Py.is_bool (is_prediction_correct x) = true) ->
  valid_mode mode ->
  exists outs w,
    run_main mode n reps = (inr outs, w)
    /\ (mode = "only-correct"%string ->
        forall o, In o outs -> correct o = Py.PyBool true)
    /\ (mode = "only-incorrect"%string ->
        forall o, In o outs -> correct o = Py.PyBool false).
Proof.
  intros Hbool Hm; eexists; eexists; split; [apply run_main_valid, Hm|].
  assert (Hrec : forall o,
             In o (loop_records mode n reps 1%nat 0 0 eval_batches) ->
             exists b, correct o = Py.PyBool b
                       /\ skips mode (Py.PyBool b) = false).
  { intros o Ho; apply loop_record_origin in Ho.
    destruct Ho as (_ & _ & x & Hx & Hc & Hs).
    specialize (Hbool x Hx); rewrite Hc.
    destruct (is_prediction_correct x) as [b | | |]; try discriminate.
    exists b; auto. }
  split; intros Hmode o Ho; destruct (Hrec o Ho) as (b & -> & Hs);
    destruct (skips_bool mode b Hs) as [H1 H2]; f_equal; auto.
Qed.

(** C3.  With a mode other than "only-correct" and "only-incorrect", [main]
    raises ValueError and has done nothing else: no collaborator was
    called, no loader built, no record made or saved. *)
Theorem invalid_mode_raises (mode : string) (n reps : Z) :
  mode <> "only-correct"%string -> mode <> "only-incorrect"%string ->
  run_main mode n reps
  = (inl (ValueError ("Unrecognized mode " ++ mode)%string),
     {| trace := []; next_loader := 0%nat |}).
Proof.
  intros H1 H2; apply run_main_invalid; intros [Hm | Hm]; contradiction.
Qed.

(** C4, amended.  A run with a valid mode returns, and it sweeps exactly
    the first max(num_examples_to_test, 0) evaluation examples that pass
    the mode filter: never more than that many, and exactly that many when
    the evaluation set holds at least num_examples_to_test passing
    examples.  Once that many have been swept the iteration halts: an
    example is evaluated only while fewer than num_examples_to_test passing
    examples precede it.  Every record belongs to a swept example, and a
    swept example has 7 * 8 * max(num_repetitions, 0) records. *)
Theorem quota_bounds_sweeps (mode : string) (n reps : Z) :
  valid_mode mode ->
  exists outs w,
    run_main mode n reps = (inr outs, w)
    /\ swept_indices (trace w) = map fst (firstn (Z.to_nat n) (passing mode))
    /\ Z.of_nat (length (swept_indices (trace w))) <= Z.max 0 n
    /\ (n <= Z.of_nat (length (passing mode)) ->
        Z.of_nat (length (swept_indices (trace w))) = Z.max 0 n)
    /\ (forall j, In j (evaluated_indices (trace w)) ->
          Z.of_nat (length (filter (fun ix => fst ix <? j) (passing mode))) < n)
    /\ (forall o, In o outs -> In (test_index o) (swept_indices (trace w)))
    /\ (forall i, In i (swept_indices (trace w)) ->
          Z.of_nat (length (records_of i outs)) = 7 * 8 * Z.max 0 reps).
Proof.
  intros Hm; eexists; eexists; split; [apply run_main_valid, Hm|].
  cbn [trace]; rewrite swept_setup, evaluated_setup.
  assert (Hsw : swept_indices (loop_events mode n reps 1%nat 0 0 eval_batches)
                = map fst (firstn (Z.to_nat n) (passing mode))).
  { rewrite swept_loop, Z.sub_0_r; reflexivity. }
  split; [exact Hsw|].
  split; [rewrite Hsw, length_map, length_firstn; lia|].
  split; [intros Hn; rewrite Hsw, length_map, length_firstn; lia|].
  split; [|split].
  - intros j Hj; apply evaluated_before_quota in Hj; exact Hj.
  - intros o Ho; apply loop_record_origin in Ho; tauto.
  - intros i Hi; apply (length_records_of_swept _ _ _ _ _ _ _ _ Hi).
Qed.

(** C5.  In the list a run returns, the records of one example appear in
    strictly ascending lexicographic order of (num_samples, batch_size,
    repetition); for a retained example they are the grid in loop order:
    num_samples outermost over range(700, 1301, 100), batch_size in the
    middle over the fixed list, repetition innermost over
    range(num_repetitions). *)
Theorem records_in_grid_order (mode : string) (n reps : Z) :
  valid_mode mode ->
  exists outs w,
    run_main mode n reps = (inr outs, w)
    /\ forall i,
         StronglySorted lex_lt (map point_of (records_of i outs))
         /\ (In i (swept_indices (trace w)) ->
             map point_of (records_of i outs)
             = flat_map (fun ns =>
                 flat_map (fun bs =>
                   map (fun rep => (ns, bs, rep)) (Py.range reps))
                   [1; 2; 4; 8; 16; 32; 64; 128])
                 (Py.range3 700 (1300 + 1) 100)).
Proof.
  intros Hm; eexists; eexists; split; [apply run_main_valid, Hm|].
  cbn [trace]; intros i; rewrite swept_setup.
  destruct (in_dec Z.eq_dec i
              (swept_indices (loop_events mode n reps 1%nat 0 0 eval_batches)))
    as [Hi | Hi].
  - rewrite (swept_records _ _ _ _ _ _ _ _ Hi).
    split; [apply grid_sorted | reflexivity].
  - split; [|contradiction].
    rewrite records_of_none; [constructor|].
    intros o Ho Heq; apply loop_record_origin in Ho.
    destruct Ho as [Ho _]; rewrite Heq in Ho; contradiction.
Qed.

(** C6.  Every artifact is saved under
    stest.<mode>.<num_examples_to_test>.<test_index>.<num_samples>.<batch_size>.<repetition>.pth,
    the name computed by [file_name] from the mode, the quota and the
    fields of the saved record.  Within one run the saved names are
    pairwise distinct, two saves with the same name are at the same grid
    point of the same example, no grid point is saved twice, and the saved
    objects are the returned records, in order. *)
Theorem artifact_names_distinct (mode : string) (n reps : Z) :
  let r := run_main mode n reps in
  (forall name o,
      In (EvSave name o) (trace (snd r)) ->
      name = file_name mode n (test_index o) (num_samples o) (batch_size o)
               (repetition o))
  /\ NoDup (map fst (saved (trace (snd r))))
  /\ (forall name o name' o',
        In (name, o) (saved (trace (snd r))) ->
        In (name', o') (saved (trace (snd r))) ->
        name = name' ->
        test_index o = test_index o' /\ num_samples o = num_samples o'
        /\ batch_size o = batch_size o' /\ repetition o = repetition o')
  /\ NoDup (map (fun s => key_of (snd s)) (saved (trace (snd r))))
  /\ (forall outs, fst r = inr outs -> map snd (saved (trace (snd r))) = outs).
Proof.
  intros r; subst r.
  destruct (run_main_trace mode n reps)
    as [(Hm & Hres & Htr) | (Hm & Hres & Htr)]; rewrite Htr.
  - rewrite saved_setup, saved_loop.
    set (recs := loop_records mode n reps 1%nat 0 0 eval_batches).
    assert (Hnamed : forall name o,
               In (name, o) (map (fun o => (name_of mode n o, o)) recs) ->
               name = name_of mode n o /\ In o recs).
    { intros name o Hin; apply in_map_iff in Hin.
      destruct Hin as (o' & Heq & Ho'); injection Heq as <- <-; auto. }
    split; [|split; [|split; [|split]]].
    + intros name o Hin.
      assert (Hs : In (name, o) (saved (setup_events
                     ++ loop_events mode n reps 1%nat 0 0 eval_batches))).
      { apply in_pick; exists (EvSave name o); auto. }
      rewrite saved_setup, saved_loop in Hs.
      apply Hnamed in Hs; destruct Hs as [-> _]; reflexivity.
    + rewrite map_map; cbn [fst].
      apply (nodup_map_by _ key_of); [apply loop_keys_nodup|].
      intros a b _ _; apply name_of_inj, Hm.
    + intros name o name' o' Ho Ho' Heq.
      apply Hnamed in Ho, Ho'; destruct Ho as [-> _], Ho' as [-> _].
      apply (name_of_inj _ _ _ _ Hm) in Heq.
      unfold key_of, point_of in Heq; injection Heq; auto.
    + rewrite map_map; cbn [snd]; apply loop_keys_nodup.
    + intros outs Houts; rewrite Hres in Houts; injection Houts as <-.
      rewrite map_map; cbn [snd]; apply map_id.
  - simpl; repeat split; try constructor; try contradiction.
    intros outs Houts; exfalso; apply (Hres outs Houts).
Qed.

(** C7.  When the loop reaches an example that the mode filter skips, the
    body only evaluates its correctness: the locals come back unchanged (the
    accumulation list and the count of tested examples), no loader is
    built, nothing is saved.  The run as a whole returns, and such an
    example is never swept, has no record in the returned list and no saved
    artifact. *)
Theorem skip_leaves_no_effect (mode : string) (n reps i : Z) (x : Inputs)
    (st : Locals) (w : World) :
  num_examples_tested st < n ->
  skips mode (is_prediction_correct x) = true ->
  loop_body mode n reps i x st w
  = ((Continue, st),
     {| trace := trace w ++ [EvIsPredictionCorrect i x];
        next_loader := next_loader w |})
  /\ exists outs w',
       run_main mode n reps = (inr outs, w')
       /\ forall k,
            nth_error eval_batches k = Some x ->
            ~ In (Z.of_nat k) (swept_indices (trace w'))
            /\ (forall o, In o outs -> test_index o <> Z.of_nat k)
            /\ (forall name o,
                  In (EvSave name o) (trace w') -> test_index o <> Z.of_nat k).
Proof.
  intros Hq Hs; split.
  - apply loop_body_skip; [|exact Hs].
    destruct (Z.geb_spec (num_examples_tested st) n); [lia | reflexivity].
  - assert (Hm : valid_mode mode).
    { apply skips_spec in Hs; destruct Hs as [[-> _] | [-> _]];
        [left | right]; reflexivity. }
    eexists; eexists; split; [apply run_main_valid, Hm|].
    cbn [trace]; intros k Hk; rewrite swept_setup.
    assert (Hno : ~ In (Z.of_nat k)
                    (swept_indices
                       (loop_events mode n reps 1%nat 0 0 eval_batches))).
    { intros Hin; apply swept_passes in Hin.
      destruct Hin as (k' & x' & Heq & Hk' & Hp).
      assert (k' = k) by lia; subst k'.
      rewrite Hk in Hk'; injection Hk' as <-; congruence. }
    split; [exact Hno|]; split.
    + intros o Ho Heq; apply loop_record_origin in Ho.
      destruct Ho as [Ho _]; rewrite Heq in Ho; contradiction.
    + intros name o Hin Heq.
      assert (Hsv : In (name, o) (saved (setup_events
                     ++ loop_events mode n reps 1%nat 0 0 eval_batches))).
      { apply in_pick; exists (EvSave name o); auto. }
      rewrite saved_setup, saved_loop in Hsv.
      apply in_map_iff in Hsv; destruct Hsv as (o' & Ho' & Hin').
      injection Ho' as _ ->.
      apply loop_record_origin in Hin'; destruct Hin' as [Hin' _].
      rewrite Heq in Hin'; contradiction.
Qed.

(** C8.  In every run each estimator call comes right after a
    [get_dataloader] call over the training set with [random=True] and one
    of the grid's batch sizes, is handed exactly the loader that call
    built, and that loader occurs nowhere earlier in the run.  No loader is
    handed to two estimator calls, and there is one estimator call per
    saved record. *)
Theorem fresh_loader_per_call (mode : string) (n reps : Z) :
  let tr := trace (snd (run_main mode n reps)) in
  fresh_loader_calls tr
  /\ NoDup (concat (map arg_train_data_loaders (estimator_calls tr)))
  /\ length (estimator_calls tr) = length (saved tr).
Proof.
  intros tr; subst tr.
  assert (Hf : fresh_loader_calls (trace (snd (run_main mode n reps)))).
  { destruct (run_main_trace mode n reps)
      as [(_ & _ & Htr) | (_ & _ & Htr)]; rewrite Htr.
    - destruct fresh_setup as [Hf Hb]; apply fresh_loop; assumption.
    - intros [|e pre] args post Heq; discriminate. }
  split; [exact Hf|]; split; [apply fresh_nodup, Hf|].
  destruct (run_main_trace mode n reps)
    as [(_ & _ & Htr) | (_ & _ & Htr)]; rewrite Htr; [|reflexivity].
  rewrite calls_setup, saved_setup, saved_loop, length_map; apply calls_loop.
Qed.

(** C9.  When the loop reaches an example, the body skips it exactly when
    the mode is "only-correct" and the correctness evaluation is the object
    False, or the mode is "only-incorrect" and it is the object True.  A
    value that is not a Python bool, truthy or falsy, never skips: the
    example is swept and counted in either mode. *)
Theorem filter_uses_identity (mode : string) (n reps i : Z) (x : Inputs)
    (st : Locals) (w : World) :
  num_examples_tested st < n ->
  let p := is_prediction_correct x in
  let r := loop_body mode n reps i x st w in
  (r = ((Continue, st),
        {| trace := trace w ++ [EvIsPredictionCorrect i x];
           next_loader := next_loader w |})
   <-> (mode = "only-correct"%string /\ p = Py.PyBool false)
       \/ (mode = "only-incorrect"%string /\ p = Py.PyBool true))
  /\ (Py.is_bool p = false ->
      In (EvToDevice i) (trace (snd r))
      /\ num_examples_tested (snd (fst r)) = num_examples_tested st + 1).
Proof.
  intros Hq p r; subst p r.
  assert (Hge : (num_examples_tested st >=? n) = false).
  { destruct (Z.geb_spec (num_examples_tested st) n); [lia | reflexivity]. }
  split.
  - rewrite <- skips_spec; split.
    + intros Hr.
      destruct (skips mode (is_prediction_correct x)) eqn:Hs; [reflexivity|].
      rewrite loop_body_sweep in Hr by assumption.
      apply (f_equal (fun r => num_examples_tested (snd (fst r)))) in Hr.
      simpl in Hr; lia.
    + intros Hs; apply loop_body_skip; assumption.
  - intros Hb.
    assert (Hs : skips mode (is_prediction_correct x) = false).
    { destruct (skips mode (is_prediction_correct x)) eqn:Hs; [|reflexivity].
      apply skips_spec in Hs; destruct Hs as [[_ Hp] | [_ Hp]];
        rewrite Hp in Hb; discriminate. }
    rewrite loop_body_sweep by assumption; simpl; split; [|reflexivity].
    apply in_app_iff; right; simpl; auto.
Qed.

(** C10.  With a valid mode and num_examples_to_test <= 0, [main] builds
    the model, the datasets, the evaluation loader and the trainer, fetches
    at most the first evaluation example, breaks there, and returns the
    empty list: no correctness evaluation, estimator call or save. *)
Theorem nonpositive_quota_returns_empty (mode : string) (n reps : Z) :
  valid_mode mode -> n <= 0 ->
  run_main mode n reps
  = (inr [],
     {| trace :=
          [EvCreateTokenizerAndModel MNLI_MODEL_PATH;
           EvCreateDatasets "mnli";
           EvGetDataloader 0%nat eval_dataset 1 false;
           EvTrainer;
           EvModelCuda]
          ++ match eval_batches with
             | [] => []
             | _ :: _ => [EvNextBatch 0]
             end;
        next_loader := 1%nat |}).
Proof.
  intros Hm Hn; rewrite run_main_valid by exact Hm.
  unfold loop_records; destruct eval_batches as [|x rest]; [reflexivity|].
  cbn [loop_events].
  destruct (Z.geb_spec 0 n) as [_ | Hlt]; [reflexivity | lia].
Qed.

(** ** Beyond the claims *)

Lemma pick_loop_cons {B} (f : Event -> option B) (mode : string) (n reps : Z)
    (l : LoaderId) (t i : Z) (x : Inputs) (rest : list Inputs) :
  pick f (loop_events mode n reps l t i (x :: rest))
  = pick f [EvNextBatch i]
    ++ if t >=? n then []
       else pick f [EvIsPredictionCorrect i x]
            ++ if skips mode (is_prediction_correct x)
               then pick f (loop_events mode n reps l t (i + 1) rest)
               else pick f [EvToDevice i]
                    ++ pick f (sweep_events mode n l i (to_cuda x)
                                 (is_prediction_correct x) (grid reps))
                    ++ pick f (loop_events mode n reps
                                 (l + length (grid reps))%nat (t + 1) (i + 1)
                                 rest).
Proof.
  cbn [loop_events].
  change (EvNextBatch i :: ?e) with ([EvNextBatch i] ++ e).
  rewrite pick_app; f_equal.
  destruct (t >=? n); [reflexivity|].
  change (EvIsPredictionCorrect i x :: ?e)
    with ([EvIsPredictionCorrect i x] ++ e).
  rewrite pick_app; f_equal.
  destruct (skips mode (is_prediction_correct x)); [reflexivity|].
  change (EvToDevice i :: ?e) with ([EvToDevice i] ++ e).
  rewrite pick_app; f_equal; apply pick_app.
Qed.

Lemma calls_loop_cons (mode : string) (n reps : Z) (l : LoaderId) (t i : Z)
    (x : Inputs) (rest : list Inputs) :
  estimator_calls (loop_events mode n reps l t i (x :: rest))
  = if t >=? n then []
    else if skips mode (is_prediction_correct x)
         then estimator_calls (loop_events mode n reps l t (i + 1) rest)
         else estimator_calls (sweep_events mode n l i (to_cuda x)
                                 (is_prediction_correct x) (grid reps))
              ++ estimator_calls (loop_events mode n reps
                                    (l + length (grid reps))%nat (t + 1)
                                    (i + 1) rest).
Proof.
  unfold estimator_calls; rewrite pick_loop_cons; simpl.
  destruct (t >=? n); [reflexivity|].
  destruct (skips mode (is_prediction_correct x)); reflexivity.
Qed.

Lemma sweep_call_origin (mode : string) (n : Z) (i : Z) (x : Inputs)
    (p : Py.object) (pts : list (Z * Z * Z)) (a : STestArgs) :
  forall l : LoaderId,
    In a (estimator_calls (sweep_events mode n l i x p pts)) ->
    exists l' pt, In pt pts /\ a = args_at l' x (fst (fst pt)).
Proof.
  induction pts as [|pt pts IH]; intros l; [intros []|].
  cbn [sweep_events]; rewrite calls_app, in_app_iff.
  intros [[<- | []] | Ha].
  - exists l, pt; split; [left|]; reflexivity.
  - destruct (IH _ Ha) as (l' & pt' & Hin & ->).
    exists l', pt'; split; [right; exact Hin | reflexivity].
Qed.

Lemma grid_sample_counts (reps : Z) (pt : Z * Z * Z) :
  In pt (grid reps) -> In (fst (fst pt)) sample_counts.
Proof. destruct pt as [[ns bs] rep]; intros H; apply in_grid in H; tauto. Qed.

Lemma fixed_args_at (l : LoaderId) (x : Inputs) (ns : Z) :
  In ns sample_counts -> fixed_call (args_at l x ns).
Proof. intros Hns; unfold fixed_call; repeat split; exact Hns. Qed.

(** An estimator call of the loop is made for an example the filter lets
    through, on its inputs moved to the device, with the fixed arguments. *)
Lemma loop_call_origin (mode : string) (n reps : Z) (xs : list Inputs)
    (a : STestArgs) :
  forall (l : LoaderId) (t i : Z),
    In a (estimator_calls (loop_events mode n reps l t i xs)) ->
    fixed_call a
    /\ exists k x, nth_error xs k = Some x
                   /\ arg_test_inputs a = to_cuda x
                   /\ skips mode (is_prediction_correct x) = false.
Proof.
  induction xs as [|x rest IH]; intros l t i; [intros []|].
  rewrite calls_loop_cons; loop_cases t n mode x.
  - intros [].
  - intros Ha; destruct (IH _ _ _ Ha) as (Hf & k & x' & Hk & Hx & Hs').
    split; [exact Hf|]; exists (S k), x'; auto.
  - rewrite in_app_iff; intros [Ha | Ha].
    + apply sweep_call_origin in Ha; destruct Ha as (l' & pt & Hin & ->).
      split; [apply fixed_args_at, (grid_sample_counts reps), Hin|].
      exists 0%nat, x; auto.
    + destruct (IH _ _ _ Ha) as (Hf & k & x' & Hk & Hx & Hs').
      split; [exact Hf|]; exists (S k), x'; auto.
Qed.

(** X1.  In every run, each estimator call is made with n_gpu = 1 on the
    cuda device, the default damp and scale, the weight-decay constant,
    the names of the parameters that do not require a gradient as filter,
    "bias" and "LayerNorm.weight" followed by those same names as
    weight-decay exemptions, and a sample budget among 700, 800, ..., 1300;
    its test inputs are the device copy of an evaluation example that the
    mode filter lets through. *)
Theorem estimator_calls_fixed (mode : string) (n reps : Z) :
  Forall (fun a =>
            fixed_call a
            /\ exists k x, nth_error eval_batches k = Some x
                           /\ arg_test_inputs a = to_cuda x
                           /\ skips mode (is_prediction_correct x) = false)
    (estimator_calls (trace (snd (run_main mode n reps)))).
Proof.
  apply Forall_forall; intros a Ha.
  destruct (run_main_trace mode n reps)
    as [(_ & _ & Htr) | (_ & _ & Htr)]; rewrite Htr in Ha; [|destruct Ha].
  rewrite calls_setup in Ha; apply (loop_call_origin _ _ _ _ _ _ _ _ Ha).
Qed.

Lemma returned_run (mode : string) (n reps : Z) :
  returned (run_main mode n reps)
  = map snd (saved (trace (snd (run_main mode n reps)))).
Proof.
  unfold returned.
  destruct (valid_mode_dec mode) as [Hm | Hm].
  - rewrite run_main_valid by exact Hm; cbn [fst snd trace].
    rewrite saved_setup; reflexivity.
  - rewrite run_main_invalid by exact Hm; reflexivity.
Qed.

Lemma returned_valid (mode : string) (n reps : Z) :
  valid_mode mode ->
  returned (run_main mode n reps)
  = loop_records mode n reps 1%nat 0 0 eval_batches.
Proof. intros Hm; unfold returned; rewrite run_main_valid by exact Hm; reflexivity. Qed.

Lemma returned_invalid (mode : string) (n reps : Z) :
  ~ valid_mode mode -> returned (run_main mode n reps) = [].
Proof. intros Hm; unfold returned; rewrite run_main_invalid by exact Hm; reflexivity. Qed.

Lemma sweep_calls_outputs (mode : string) (n : Z) (i : Z) (x : Inputs)
    (p : Py.object) (pts : list (Z * Z * Z)) :
  forall l : LoaderId,
    map (fun a => (arg_num_samples a, map cpu (compute_s_test a)))
      (estimator_calls (sweep_events mode n l i x p pts))
    = map (fun o => (num_samples o, s_test o)) (sweep_records l i x p pts)
    /\ map arg_train_data_loaders
         (estimator_calls (sweep_events mode n l i x p pts))
       = map (fun k => [k]) (seq l (length pts)).
Proof.
  induction pts as [|[[ns bs] rep] pts IH]; intros l; [split; reflexivity|].
  cbn [sweep_events sweep_records]; rewrite calls_app.
  change (estimator_calls (point_events mode n l i x p (ns, bs, rep)))
    with [args_at l x ns].
  destruct (IH (S l)) as [IH1 IH2].
  cbn [app map length seq]; rewrite IH1, IH2; split; reflexivity.
Qed.

Lemma loop_calls_outputs (mode : string) (n reps : Z) (xs : list Inputs) :
  forall (l : LoaderId) (t i : Z),
    map (fun a => (arg_num_samples a, map cpu (compute_s_test a)))
      (estimator_calls (loop_events mode n reps l t i xs))
    = map (fun o => (num_samples o, s_test o))
        (loop_records mode n reps l t i xs)
    /\ map arg_train_data_loaders
         (estimator_calls (loop_events mode n reps l t i xs))
       = map (fun k => [k])
           (seq l (length (loop_records mode n reps l t i xs))).
Proof.
  induction xs as [|x rest IH]; intros l t i; [split; reflexivity|].
  rewrite calls_loop_cons, loop_records_cons; loop_cases t n mode x.
  - split; reflexivity.
  - apply IH.
  - destruct (sweep_calls_outputs mode n i (to_cuda x)
                (is_prediction_correct x) (grid reps) l) as [S1 S2].
    destruct (IH (l + length (grid reps))%nat (t + 1) (i + 1)) as [L1 L2].
    rewrite !map_app, S1, S2, L1, L2, length_app, seq_app, map_app.
    rewrite length_sweep_records; split; reflexivity.
Qed.

(** X2.  In every run the estimator calls and the returned records match
    one for one, in order: the k-th record holds the sample budget of the
    k-th call and, as [s_test], the output of that call with every tensor
    moved to the host; the k-th call is handed exactly one loader, the
    k-th one built after the evaluation loader. *)
Theorem records_hold_call_outputs (mode : string) (n reps : Z) :
  let r := run_main mode n reps in
  map (fun a => (arg_num_samples a, map cpu (compute_s_test a)))
    (estimator_calls (trace (snd r)))
  = map (fun o => (num_samples o, s_test o)) (returned r)
  /\ map arg_train_data_loaders (estimator_calls (trace (snd r)))
     = map (fun k => [k]) (seq 1 (length (returned r))).
Proof.
  intros r; subst r.
  destruct (valid_mode_dec mode) as [Hm | Hm].
  - rewrite returned_valid, run_main_valid by exact Hm; cbn [snd trace].
    rewrite calls_setup; apply loop_calls_outputs.
  - rewrite returned_invalid, run_main_invalid by exact Hm.
    split; reflexivity.
Qed.

Lemma loop_record_example (mode : string) (n reps : Z) (xs : list Inputs)
    (o : Outputs) :
  forall (l : LoaderId) (t i : Z),
    In o (loop_records mode n reps l t i xs) ->
    exists k x, test_index o = i + Z.of_nat k
                /\ nth_error xs k = Some x
                /\ correct o = is_prediction_correct x
                /\ skips mode (is_prediction_correct x) = false.
Proof.
  induction xs as [|x rest IH]; intros l t i; [intros []|].
  rewrite loop_records_cons; loop_cases t n mode x.
  - intros [].
  - intros Ho; destruct (IH _ _ _ Ho) as (k & x' & Hi & Hk & Hc & Hs').
    exists (S k), x'; repeat split; auto; lia.
  - rewrite in_app_iff; intros [Ho | Ho].
    + apply sweep_records_fields in Ho; destruct Ho as [Hi Hc].
      exists 0%nat, x; repeat split; auto; lia.
    + destruct (IH _ _ _ Ho) as (k & x' & Hi & Hk & Hc & Hs').
      exists (S k), x'; repeat split; auto; lia.
Qed.

(** X3.  Every returned record belongs to the evaluation example at its
    [test_index]: the index is a position of the evaluation set, the
    [correct] field is the correctness evaluation of the example at that
    position (taken before the inputs are moved to the device), and the
    mode filter lets that example through. *)
Theorem record_belongs_to_example (mode : string) (n reps : Z) :
  Forall (fun o =>
            0 <= test_index o
            /\ exists x,
                 nth_error eval_batches (Z.to_nat (test_index o)) = Some x
                 /\ correct o = is_prediction_correct x
                 /\ skips mode (is_prediction_correct x) = false)
    (returned (run_main mode n reps)).
Proof.
  apply Forall_forall; intros o Ho.
  destruct (valid_mode_dec mode) as [Hm | Hm].
  - rewrite returned_valid in Ho by exact Hm.
    apply loop_record_example in Ho.
    destruct Ho as (k & x & Hi & Hk & Hc & Hs).
    split; [lia|]; exists x; rewrite Hi.
    replace (Z.to_nat (0 + Z.of_nat k)) with k by lia; auto.
  - rewrite returned_invalid in Ho by exact Hm; destruct Ho.
Qed.

(** X4.  Whatever the correctness evaluation hands back, a run with mode
    "only-correct" returns no record whose [correct] is the object False,
    and a run with mode "only-incorrect" returns no record whose [correct]
    is the object True. *)
Theorem rejected_object_never_recorded (mode : string) (n reps : Z) :
  Forall (fun o =>
            (mode = "only-correct"%string -> correct o <> Py.PyBool false)
            /\ (mode = "only-incorrect"%string -> correct o <> Py.PyBool true))
    (returned (run_main mode n reps)).
Proof.
  apply Forall_forall; intros o Ho.
  destruct (valid_mode_dec mode) as [Hm | Hm].
  - rewrite returned_valid in Ho by exact Hm.
    apply loop_record_origin in Ho; destruct Ho as (_ & _ & x & _ & Hc & Hs).
    rewrite <- Hc in Hs.
    split; intros -> Heq; rewrite Heq in Hs; discriminate.
  - rewrite returned_invalid in Ho by exact Hm; destruct Ho.
Qed.

Lemma loop_records_length (mode : string) (n reps : Z) (xs : list Inputs) :
  forall (l : LoaderId) (t i : Z),
    length (loop_records mode n reps l t i xs)
    = (length (grid reps)
       * length (swept_indices (loop_events mode n reps l t i xs)))%nat.
Proof.
  induction xs as [|x rest IH]; intros l t i.
  - simpl; lia.
  - rewrite loop_records_cons, swept_loop_cons; loop_cases t n mode x.
    + simpl; lia.
    + apply IH.
    + rewrite length_app, length_sweep_records, IH; simpl; lia.
Qed.

(** X5.  A run with a valid mode returns exactly
    7 * 8 * max(num_repetitions, 0) * min(max(num_examples_to_test, 0), p)
    records, where p is the number of evaluation examples that pass the
    mode filter. *)
Theorem returned_length (mode : string) (n reps : Z) :
  valid_mode mode ->
  Z.of_nat (length (returned (run_main mode n reps)))
  = 7 * 8 * Z.max 0 reps
    * Z.min (Z.max 0 n) (Z.of_nat (length (passing mode))).
Proof.
  intros Hm; rewrite returned_valid by exact Hm.
  rewrite loop_records_length, length_grid, swept_loop, Z.sub_0_r.
  rewrite length_map, length_firstn.
  change (filter (passes mode) (enumerate_from 0 eval_batches))
    with (passing mode).
  rewrite !Nat2Z.inj_mul, Nat2Z.inj_min; simpl Z.of_nat at 1 2.
  f_equal; [|f_equal]; lia.
Qed.

Lemma key_lt_irrefl (a : Z * (Z * Z * Z)) : ~ key_lt a a.
Proof.
  unfold key_lt; intros [H | [_ H]]; [lia | exact (lex_lt_irrefl _ H)].
Qed.

Lemma loop_keys_sorted (mode : string) (n reps : Z) (xs : list Inputs) :
  forall (l : LoaderId) (t i : Z),
    StronglySorted key_lt (map key_of (loop_records mode n reps l t i xs)).
Proof.
  induction xs as [|x rest IH]; intros l t i; [constructor|].
  rewrite loop_records_cons; loop_cases t n mode x.
  - constructor.
  - apply IH.
  - rewrite map_app; apply sorted_app; [| apply IH |].
    + rewrite sweep_records_keys.
      apply (sorted_map lex_lt); [|apply grid_sorted].
      intros a b Hab; right; split; [reflexivity | exact Hab].
    + intros a b Ha Hb; left.
      apply in_map_iff in Ha, Hb.
      destruct Ha as (o & <- & Ho), Hb as (o' & <- & Ho').
      apply sweep_records_fields in Ho; destruct Ho as [Ho _].
      apply loop_record_origin in Ho'; destruct Ho' as [Ho' _].
      apply swept_lower in Ho'; simpl; lia.
Qed.

(** X6.  The whole returned list is in strictly ascending order of
    (test_index, num_samples, batch_size, repetition): the records of one
    example are contiguous, examples come in evaluation order, and no
    (example, grid point) occurs twice. *)
Theorem returned_sorted (mode : string) (n reps : Z) :
  StronglySorted key_lt (map key_of (returned (run_main mode n reps)))
  /\ NoDup (map key_of (returned (run_main mode n reps))).
Proof.
  assert (Hs : StronglySorted key_lt
                 (map key_of (returned (run_main mode n reps)))).
  { destruct (valid_mode_dec mode) as [Hm | Hm].
    - rewrite returned_valid by exact Hm; apply loop_keys_sorted.
    - rewrite returned_invalid by exact Hm; constructor. }
  split; [exact Hs | apply (sorted_nodup key_lt); [apply key_lt_irrefl | exact Hs]].
Qed.

Lemma loop_records_quota (mode : string) (n n' reps : Z) (xs : list Inputs) :
  n <= n' ->
  forall (l : LoaderId) (t i : Z),
    exists more,
      loop_records mode n' reps l t i xs
      = loop_records mode n reps l t i xs ++ more.
Proof.
  intros Hn; induction xs as [|x rest IH]; intros l t i.
  - exists []; reflexivity.
  - rewrite !loop_records_cons.
    destruct (Z.geb_spec t n) as [Hq | Hq]; [eexists; reflexivity|].
    destruct (Z.geb_spec t n') as [Hq' | _]; [lia|].
    destruct (skips mode (is_prediction_correct x)); [apply IH|].
    destruct (IH (l + length (grid reps))%nat (t + 1) (i + 1)) as [more ->].
    exists more; apply app_assoc.
Qed.

(** X7.  Raising num_examples_to_test only appends: the (example, grid
    point) keys and correctness flags of the records returned with a quota
    are an initial segment of those returned with a larger quota, mode and
    num_repetitions unchanged. *)
Theorem larger_quota_appends (mode : string) (n n' reps : Z) :
  n <= n' ->
  exists more,
    map (fun o => (key_of o, correct o)) (returned (run_main mode n' reps))
    = map (fun o => (key_of o, correct o)) (returned (run_main mode n reps))
      ++ more.
Proof.
  intros Hn; destruct (valid_mode_dec mode) as [Hm | Hm].
  - rewrite !returned_valid by exact Hm.
    destruct (loop_records_quota mode n n' reps eval_batches Hn 1%nat 0 0)
      as [more ->].
    rewrite map_app; eexists; reflexivity.
  - rewrite !returned_invalid by exact Hm; exists []; reflexivity.
Qed.

Lemma follow_snoc_other (tr : list Event) (e : Event) :
  (forall name o, e <> EvSave name o) ->
  saves_follow_calls tr -> saves_follow_calls (tr ++ [e]).
Proof.
  intros He H pre name o post Heq.
  apply snoc_split in Heq; destruct Heq as [(_ & _ & Hc) | (post' & _ & Htr)].
  - exfalso; apply (He name o Hc).
  - apply (H pre name o post' Htr).
Qed.

Lemma follow_point (mode : string) (n : Z) (l : LoaderId) (i : Z) (x : Inputs)
    (p : Py.object) (pt : Z * Z * Z) (tr : list Event) :
  saves_follow_calls tr ->
  saves_follow_calls (tr ++ point_events mode n l i x p pt).
Proof.
  intros Hf; unfold point_events.
  change (tr ++ [?g; ?c; ?s]) with (tr ++ [g] ++ [c] ++ [s]).
  rewrite !app_assoc.
  intros pre name o post Heq.
  apply snoc_split in Heq; destruct Heq as [(_ & <- & Hc) | (post' & _ & Htr)].
  - injection Hc as <- <-.
    exists (tr ++ [EvGetDataloader l train_dataset (snd (fst pt)) true]).
    exists (args_at l x (fst (fst pt))).
    destruct pt as [[ns bs] rep]; repeat split.
  - revert pre name o post' Htr.
    do 2 (apply follow_snoc_other; [discriminate|]); exact Hf.
Qed.

Lemma follow_sweep (mode : string) (n : Z) (i : Z) (x : Inputs) (p : Py.object)
    (pts : list (Z * Z * Z)) :
  forall (l : LoaderId) (tr : list Event),
    saves_follow_calls tr ->
    saves_follow_calls (tr ++ sweep_events mode n l i x p pts).
Proof.
  induction pts as [|pt pts IH]; intros l tr Hf.
  - simpl; rewrite app_nil_r; exact Hf.
  - cbn [sweep_events]; rewrite app_assoc; apply IH, follow_point, Hf.
Qed.

Lemma follow_loop (mode : string) (n reps : Z) (xs : list Inputs) :
  forall (l : LoaderId) (t i : Z) (tr : list Event),
    saves_follow_calls tr ->
    saves_follow_calls (tr ++ loop_events mode n reps l t i xs).
Proof.
  induction xs as [|x rest IH]; intros l t i tr Hf.
  - simpl; rewrite app_nil_r; exact Hf.
  - cbn [loop_events].
    assert (Hf1 : saves_follow_calls (tr ++ [EvNextBatch i])).
    { apply follow_snoc_other; [discriminate | exact Hf]. }
    loop_cases t n mode x.
    + exact Hf1.
    + change (tr ++ EvNextBatch i :: EvIsPredictionCorrect i x :: ?e)
        with (tr ++ [EvNextBatch i] ++ [EvIsPredictionCorrect i x] ++ e).
      rewrite !app_assoc; apply IH.
      apply follow_snoc_other; [discriminate | exact Hf1].
    + change (tr ++ EvNextBatch i :: EvIsPredictionCorrect i x
                 :: EvToDevice i :: ?s ++ ?e)
        with (tr ++ [EvNextBatch i] ++ [EvIsPredictionCorrect i x]
                 ++ [EvToDevice i] ++ s ++ e).
      rewrite !app_assoc; apply IH, follow_sweep.
      do 2 (apply follow_snoc_other; [discriminate|]); exact Hf1.
Qed.

Lemma follow_setup : saves_follow_calls setup_events.
Proof.
  intros pre name o post Heq; exfalso.
  assert (Hin : In (EvSave name o) setup_events).
  { rewrite Heq; apply in_elt. }
  simpl in Hin; intuition discriminate.
Qed.

(** X8.  In every run each save comes right after an estimator call, and
    the object saved holds the output of that very call, moved to the
    host, and its sample budget: a grid point is persisted before the
    next one is computed. *)
Theorem save_follows_its_call (mode : string) (n reps : Z) :
  saves_follow_calls (trace (snd (run_main mode n reps))).
Proof.
  destruct (run_main_trace mode n reps)
    as [(_ & _ & Htr) | (_ & _ & Htr)]; rewrite Htr.
  - apply follow_loop, follow_setup.
  - intros [|e pre] name o post Heq; discriminate.
Qed.

Lemma quiet_sweep (mode : string) (n : Z) (i : Z) (x : Inputs)
    (p : Py.object) (pts : list (Z * Z * Z)) :
  forall l : LoaderId,
    evaluations (sweep_events mode n l i x p pts) = []
    /\ fetched_indices (sweep_events mode n l i x p pts) = [].
Proof.
  induction pts as [|pt pts IH]; intros l; [split; reflexivity|].
  destruct (IH (S l)) as [I1 I2].
  unfold evaluations, fetched_indices in *; cbn [sweep_events].
  rewrite !pick_app, I1, I2; split; reflexivity.
Qed.

Lemma evaluations_loop_cons (mode : string) (n reps : Z) (l : LoaderId)
    (t i : Z) (x : Inputs) (rest : list Inputs) :
  evaluations (loop_events mode n reps l t i (x :: rest))
  = if t >=? n then []
    else (i, x)
         :: if skips mode (is_prediction_correct x)
            then evaluations (loop_events mode n reps l t (i + 1) rest)
            else evaluations
                   (loop_events mode n reps (l + length (grid reps))%nat
                      (t + 1) (i + 1) rest).
Proof.
  destruct (quiet_sweep mode n i (to_cuda x) (is_prediction_correct x)
              (grid reps) l) as [Q _].
  unfold evaluations in *; rewrite pick_loop_cons, Q.
  destruct (t >=? n); [reflexivity|].
  destruct (skips mode (is_prediction_correct x)); reflexivity.
Qed.

Lemma fetched_loop_cons (mode : string) (n reps : Z) (l : LoaderId)
    (t i : Z) (x : Inputs) (rest : list Inputs) :
  fetched_indices (loop_events mode n reps l t i (x :: rest))
  = i :: if t >=? n then []
         else if skips mode (is_prediction_correct x)
              then fetched_indices (loop_events mode n reps l t (i + 1) rest)
              else fetched_indices
                     (loop_events mode n reps (l + length (grid reps))%nat
                        (t + 1) (i + 1) rest).
Proof.
  destruct (quiet_sweep mode n i (to_cuda x) (is_prediction_correct x)
              (grid reps) l) as [_ Q].
  unfold fetched_indices in *; rewrite pick_loop_cons, Q.
  destruct (t >=? n); [reflexivity|].
  destruct (skips mode (is_prediction_correct x)); reflexivity.
Qed.

Lemma loop_walk (mode : string) (n reps : Z) (xs : list Inputs) :
  forall (l : LoaderId) (t i : Z),
    exists k,
      evaluations (loop_events mode n reps l t i xs)
      = firstn k (enumerate_from i xs)
      /\ (fetched_indices (loop_events mode n reps l t i xs)
          = map fst (firstn k (enumerate_from i xs))
          \/ fetched_indices (loop_events mode n reps l t i xs)
             = map fst (firstn (S k) (enumerate_from i xs))).
Proof.
  induction xs as [|x rest IH]; intros l t i.
  - exists 0%nat; split; [reflexivity | left; reflexivity].
  - rewrite evaluations_loop_cons, fetched_loop_cons.
    loop_cases t n mode x.
    + exists 0%nat; split; [reflexivity | right; reflexivity].
    + destruct (IH l t (i + 1)) as (k & He & Hf).
      exists (S k); cbn [enumerate_from firstn map fst].
      rewrite He; split; [reflexivity|].
      destruct Hf as [-> | ->]; [left | right]; reflexivity.
    + destruct (IH (l + length (grid reps))%nat (t + 1) (i + 1))
        as (k & He & Hf).
      exists (S k); cbn [enumerate_from firstn map fst].
      rewrite He; split; [reflexivity|].
      destruct Hf as [-> | ->]; [left | right]; reflexivity.
Qed.

Lemma evaluations_setup (tr : list Event) :
  evaluations (setup_events ++ tr) = evaluations tr.
Proof. unfold evaluations; rewrite pick_app; reflexivity. Qed.

Lemma fetched_setup (tr : list Event) :
  fetched_indices (setup_events ++ tr) = fetched_indices tr.
Proof. unfold fetched_indices; rewrite pick_app; reflexivity. Qed.

(** X9.  In every run the evaluation examples are walked in order, with no
    gap and no repeat: the correctness evaluations are made on the first k
    examples of the evaluation set, each on the inputs as loaded, for some
    k, and the examples fetched from the loader are those k or those k
    and the next one (the one at which the loop breaks). *)
Theorem examples_walked_in_order (mode : string) (n reps : Z) :
  let tr := trace (snd (run_main mode n reps)) in
  exists k,
    evaluations tr = firstn k (enumerate_from 0 eval_batches)
    /\ (fetched_indices tr = map fst (firstn k (enumerate_from 0 eval_batches))
        \/ fetched_indices tr
           = map fst (firstn (S k) (enumerate_from 0 eval_batches))).
Proof.
  intros tr; subst tr.
  destruct (run_main_trace mode n reps)
    as [(_ & _ & Htr) | (_ & _ & Htr)]; rewrite Htr.
  - rewrite evaluations_setup, fetched_setup; apply loop_walk.
  - exists 0%nat; split; [reflexivity | left; reflexivity].
Qed.

Lemma loop_exhausts (mode : string) (n reps : Z) (xs : list Inputs) :
  forall (l : LoaderId) (t i : Z),
    t + Z.of_nat (length (filter (passes mode) (enumerate_from i xs))) < n ->
    evaluations (loop_events mode n reps l t i xs) = enumerate_from i xs
    /\ fetched_indices (loop_events mode n reps l t i xs)
       = map fst (enumerate_from i xs).
Proof.
  induction xs as [|x rest IH]; intros l t i Hlt; [split; reflexivity|].
  rewrite evaluations_loop_cons, fetched_loop_cons.
  cbn [enumerate_from filter] in Hlt; unfold passes at 1 in Hlt.
  cbn [snd] in Hlt.
  destruct (Z.geb_spec t n) as [Hq | Hq]; [lia|].
  destruct (skips mode (is_prediction_correct x)); cbn [negb] in Hlt.
  - destruct (IH l t (i + 1) Hlt) as [-> ->]; split; reflexivity.
  - cbn [length] in Hlt.
    destruct (IH (l + length (grid reps))%nat (t + 1) (i + 1)) as [-> ->];
      [lia | split; reflexivity].
Qed.

(** X10.  When fewer than num_examples_to_test evaluation examples pass the
    mode filter, a run with a valid mode goes through the whole evaluation
    set: every example is fetched and evaluated, once and in order, and
    exactly the passing examples are swept. *)
Theorem short_of_quota_walks_everything (mode : string) (n reps : Z) :
  valid_mode mode ->
  Z.of_nat (length (passing mode)) < n ->
  let tr := trace (snd (run_main mode n reps)) in
  evaluations tr = enumerate_from 0 eval_batches
  /\ fetched_indices tr = map fst (enumerate_from 0 eval_batches)
  /\ swept_indices tr = map fst (passing mode).
Proof.
  intros Hm Hlt tr; subst tr.
  rewrite run_main_valid by exact Hm; cbn [snd trace].
  rewrite evaluations_setup, fetched_setup, swept_setup.
  destruct (loop_exhausts mode n reps eval_batches 1%nat 0 0) as [He Hf].
  { unfold passing in Hlt; lia. }
  split; [exact He | split; [exact Hf|]].
  rewrite swept_loop, Z.sub_0_r, firstn_all2; [reflexivity|].
  unfold passing in Hlt; lia.
Qed.

Lemma length_enumerate_from {A} (xs : list A) :
  forall i, length (enumerate_from i xs) = length xs.
Proof. induction xs as [|x xs IH]; intros i; simpl; [|rewrite IH]; reflexivity. Qed.

Lemma in_passing (mode : string) (k : nat) (x : Inputs) :
  nth_error eval_batches k = Some x ->
  In (Z.of_nat k) (map fst (passing mode))
  <-> skips mode (is_prediction_correct x) = false.
Proof.
  intros Hk; unfold passing; rewrite in_map_iff; split.
  - intros ([j x'] & Hj & Hin); cbn [fst] in Hj; subst j.
    apply filter_In in Hin; destruct Hin as [Hin Hp].
    apply in_enumerate_from in Hin; destruct Hin as (k' & Heq & Hk').
    assert (k' = k) by lia; subst k'.
    rewrite Hk in Hk'; injection Hk' as <-.
    unfold passes in Hp; simpl in Hp; apply negb_true_iff, Hp.
  - intros Hs; exists (Z.of_nat k, x); split; [reflexivity|].
    apply filter_In; split.
    + apply in_enumerate_from; exists k; split; [lia | exact Hk].
    + unfold passes; simpl; rewrite Hs; reflexivity.
Qed.

Lemma swept_generous (mode : string) (n reps : Z) :
  valid_mode mode ->
  Z.of_nat (length eval_batches) <= n ->
  swept_indices (trace (snd (run_main mode n reps))) = map fst (passing mode).
Proof.
  intros Hm Hn; rewrite run_main_valid by exact Hm; cbn [snd trace].
  rewrite swept_setup, swept_loop, Z.sub_0_r, firstn_all2; [reflexivity|].
  pose proof (filter_length_le (passes mode) (enumerate_from 0 eval_batches)).
  rewrite length_enumerate_from in *; lia.
Qed.

(** X11.  With num_examples_to_test at least the size of the evaluation
    set, a run with mode "only-correct" sweeps exactly the examples whose
    correctness evaluation is not the object False, and a run with mode
    "only-incorrect" exactly those whose evaluation is not the object
    True. *)
Theorem generous_quota_sweeps_by_flag (n reps : Z) (k : nat) (x : Inputs) :
  Z.of_nat (length eval_batches) <= n ->
  nth_error eval_batches k = Some x ->
  (In (Z.of_nat k)
      (swept_indices (trace (snd (run_main "only-correct" n reps))))
   <-> is_prediction_correct x <> Py.PyBool false)
  /\ (In (Z.of_nat k)
         (swept_indices (trace (snd (run_main "only-incorrect" n reps))))
      <-> is_prediction_correct x <> Py.PyBool true).
Proof.
  intros Hn Hk.
  rewrite !swept_generous, !(in_passing _ k x Hk);
    try exact Hn; try (left; reflexivity); try (right; reflexivity).
  split; (split;
    [ intros Hs Heq; rewrite Heq in Hs; discriminate
    | intros Hne;
      destruct (skips _ (is_prediction_correct x)) eqn:Hs; [|reflexivity];
      apply skips_spec in Hs; destruct Hs as [[Hm Hp] | [Hm Hp]];
      try discriminate; contradiction ]).
Qed.

Lemma run_saved_names (mode : string) (n reps : Z) (name : string) :
  In name (map fst (saved (trace (snd (run_main mode n reps))))) ->
  valid_mode mode /\ exists o, name = name_of mode n o.
Proof.
  destruct (run_main_trace mode n reps)
    as [(Hm & _ & Htr) | (_ & _ & Htr)]; rewrite Htr; [|intros []].
  rewrite saved_setup, saved_loop, map_map; cbn [fst].
  intros Hin; apply in_map_iff in Hin; destruct Hin as (o & <- & _).
  split; [exact Hm | exists o; reflexivity].
Qed.

(** X12.  Two runs that differ in mode or in num_examples_to_test never
    save under a common name, whatever their num_repetitions: neither
    overwrites an artifact of the other. *)
Theorem runs_never_share_names (mode mode' : string) (n n' reps reps' : Z) :
  (mode, n) <> (mode', n') ->
  Forall (fun name =>
            ~ In name
                (map fst (saved (trace (snd (run_main mode' n' reps'))))))
    (map fst (saved (trace (snd (run_main mode n reps))))).
Proof.
  intros Hne; apply Forall_forall; intros name H1 H2.
  apply run_saved_names in H1, H2.
  destruct H1 as (Hm & o & ->), H2 as (Hm' & o' & Heq).
  apply file_name_inj in Heq; try (apply valid_mode_no_dot; assumption).
  destruct Heq as (-> & -> & _); apply Hne; reflexivity.
Qed.

Lemma sweep_no_setup (mode : string) (n : Z) (i : Z) (x : Inputs)
    (p : Py.object) (pts : list (Z * Z * Z)) :
  forall l : LoaderId,
    Forall (fun e => is_setup_event e = false)
      (sweep_events mode n l i x p pts).
Proof.
  induction pts as [|pt pts IH]; intros l; [constructor|].
  cbn [sweep_events]; apply Forall_app; split; [|apply IH].
  repeat constructor.
Qed.

Lemma loop_no_setup (mode : string) (n reps : Z) (xs : list Inputs) :
  forall (l : LoaderId) (t i : Z),
    Forall (fun e => is_setup_event e = false)
      (loop_events mode n reps l t i xs).
Proof.
  induction xs as [|x rest IH]; intros l t i; [constructor|].
  cbn [loop_events]; constructor; [reflexivity|].
  loop_cases t n mode x.
  - constructor.
  - constructor; [reflexivity | apply IH].
  - do 2 (constructor; [reflexivity|]).
    apply Forall_app; split; [apply sweep_no_setup | apply IH].
Qed.

(** X13.  A run with a valid mode builds the tokenizer and model, the
    datasets, the evaluation loader (batch size 1, not shuffled), the
    trainer, and moves the model to the device, in that order, before the
    first example is fetched; none of this is done again later in the run,
    and every loader built afterwards is over the training set. *)
Theorem setup_made_once (mode : string) (n reps : Z) :
  valid_mode mode ->
  exists rest,
    trace (snd (run_main mode n reps))
    = [EvCreateTokenizerAndModel MNLI_MODEL_PATH;
       EvCreateDatasets "mnli";
       EvGetDataloader 0%nat eval_dataset 1 false;
       EvTrainer;
       EvModelCuda] ++ rest
    /\ Forall (fun e => is_setup_event e = false) rest.
Proof.
  intros Hm; rewrite run_main_valid by exact Hm; cbn [snd trace].
  eexists; split; [reflexivity | apply loop_no_setup].
Qed.

End Runs.

(** ** The claims at concrete runs *)

Lemma grid_points_per_example_witness :
  valid_mode "only-correct"
  /\ exists outs w,
       @run_main demo_domain (demo [Py.PyBool false; Py.PyBool true])
         "only-correct" 2 1 = (inr outs, w)
       /\ In 1 (swept_indices (trace w))
       /\ Z.of_nat (length (records_of 1 outs)) = 7 * 8 * Z.max 0 1.
Proof.
  assert (Hm : valid_mode "only-correct") by (left; reflexivity).
  split; [exact Hm|].
  destruct (@grid_points_per_example demo_domain
              (demo [Py.PyBool false; Py.PyBool true]) "only-correct" 2 1 Hm)
    as (outs & w & Hrun & H).
  assert (Hi : In 1 (swept_indices (trace w))).
  { assert (Hw : w = snd (@run_main demo_domain
                            (demo [Py.PyBool false; Py.PyBool true])
                            "only-correct" 2 1))
      by (rewrite Hrun; reflexivity).
    rewrite Hw; vm_compute; auto. }
  exists outs, w; split; [exact Hrun | split; [exact Hi|]].
  apply (H 1 Hi).
Defined.

(** C1 as worded fails for a negative num_repetitions: the example is
    retained, [range(-1)] is empty, and it has 0 records, not
    7 * 8 * (-1). *)
Lemma grid_points_negative_repetitions :
  let r := @run_main demo_domain (demo [Py.PyBool true]) "only-correct" 1 (-1) in
  r = (inr (returned r), snd r)
  /\ In 0 (swept_indices (trace (snd r)))
  /\ Z.of_nat (length (records_of 0 (returned r))) <> 7 * 8 * (-1).
Proof.
  intros r; split; [vm_compute; reflexivity|].
  split; [vm_compute; auto|].
  vm_compute; discriminate.
Qed.

Lemma mode_filter_correct_flag_witness :
  let E := demo [Py.PyBool false; Py.PyBool true] in
  (forall x, In x (@eval_batches demo_domain E) ->
             Py.is_bool (@is_prediction_correct demo_domain E x) = true)
  /\ valid_mode "only-correct"
  /\ exists outs w,
       @run_main demo_domain E "only-correct" 2 1 = (inr outs, w)
       /\ forall o, In o outs -> correct o = Py.PyBool true.
Proof.
  intros E.
  assert (H1 : forall x, In x (@eval_batches demo_domain E) ->
                 Py.is_bool (@is_prediction_correct demo_domain E x) = true).
  { intros x [<- | [<- | []]]; reflexivity. }
  assert (Hm : valid_mode "only-correct") by (left; reflexivity).
  split; [exact H1 | split; [exact Hm|]].
  destruct (@mode_filter_correct_flag demo_domain E "only-correct" 2 1 H1 Hm)
    as (outs & w & Hrun & Hc & _).
  exists outs, w; split; [exact Hrun | exact (Hc eq_refl)].
Defined.

(** C2 as worded fails when the correctness evaluation hands back an object
    that is not a Python bool.  A NumPy False is not the object False, so
    "only-correct" retains the example and every record carries the NumPy
    False, which is not True; likewise None is not the object True, so
    "only-incorrect" retains the example and records None, which is not
    False. *)
Lemma non_bool_flag_recorded :
  (let r := @run_main demo_domain (demo [Py.NpBool false]) "only-correct" 1 1 in
   r = (inr (returned r), snd r)
   /\ exists o, In o (returned r)
                /\ correct o = Py.NpBool false
                /\ correct o <> Py.PyBool true)
  /\ (let r := @run_main demo_domain (demo [Py.PyNone]) "only-incorrect" 1 1 in
      r = (inr (returned r), snd r)
      /\ exists o, In o (returned r)
                   /\ correct o = Py.PyNone
                   /\ correct o <> Py.PyBool false).
Proof.
  split; intros r; (split; [vm_compute; reflexivity|]).
  - exists (@record_at demo_domain (demo [Py.NpBool false]) 1%nat 0
              (Py.NpBool false) (Py.NpBool false) (700, 1, 0)).
    split; [vm_compute; auto | split; [reflexivity | discriminate]].
  - exists (@record_at demo_domain (demo [Py.PyNone]) 1%nat 0
              Py.PyNone Py.PyNone (700, 1, 0)).
    split; [vm_compute; auto | split; [reflexivity | discriminate]].
Qed.

Lemma invalid_mode_raises_witness :
  "bogus"%string <> "only-correct"%string
  /\ "bogus"%string <> "only-incorrect"%string
  /\ @run_main demo_domain (demo [Py.PyBool true]) "bogus" 5 4
     = (inl (ValueError "Unrecognized mode bogus"),
        {| trace := []; next_loader := 0%nat |}).
Proof.
  assert (H1 : "bogus"%string <> "only-correct"%string) by discriminate.
  assert (H2 : "bogus"%string <> "only-incorrect"%string) by discriminate.
  split; [exact H1 | split; [exact H2|]].
  apply (@invalid_mode_raises demo_domain (demo [Py.PyBool true])
           "bogus" 5 4 H1 H2).
Defined.

Lemma quota_bounds_sweeps_witness :
  let E := demo [Py.PyBool true; Py.PyBool false; Py.PyNone; Py.PyBool true] in
  valid_mode "only-correct"
  /\ exists outs w,
       @run_main demo_domain E "only-correct" 2 1 = (inr outs, w)
       /\ swept_indices (trace w) = [0; 2]
       /\ Z.of_nat (length (swept_indices (trace w))) <= Z.max 0 2.
Proof.
  intros E.
  assert (Hm : valid_mode "only-correct") by (left; reflexivity).
  split; [exact Hm|].
  destruct (@quota_bounds_sweeps demo_domain E "only-correct" 2 1 Hm)
    as (outs & w & Hrun & Hsw & Hle & _).
  exists outs, w; split; [exact Hrun|].
  split; [rewrite Hsw; reflexivity | exact Hle].
Defined.

(** C4 as worded fails at two inputs.  With num_examples_to_test = -1 no
    example is swept, which is more than -1.  With num_examples_to_test = 1
    and num_repetitions = 0 the evaluation set holds one passing example,
    it is swept and counted, and no example has a record. *)
Lemma quota_negative_or_without_repetitions :
  (let r := @run_main demo_domain (demo [Py.PyBool true])
              "only-correct" (-1) 1 in
   r = (inr (returned r), snd r)
   /\ ~ Z.of_nat (length (swept_indices (trace (snd r)))) <= -1)
  /\ (let E := demo [Py.PyBool true] in
      let r := @run_main demo_domain E "only-correct" 1 0 in
      r = (inr (returned r), snd r)
      /\ 1 <= Z.of_nat (length (@passing demo_domain E "only-correct"))
      /\ Z.of_nat (length (contributors (returned r))) <> 1).
Proof.
  split.
  - intros r; split; [vm_compute; reflexivity|].
    vm_compute; intros H; apply H; reflexivity.
  - intros E r; split; [vm_compute; reflexivity|].
    split; vm_compute; discriminate.
Qed.

Lemma records_in_grid_order_witness :
  let E := demo [Py.PyBool false; Py.PyBool true] in
  valid_mode "only-incorrect"
  /\ exists outs w,
       @run_main demo_domain E "only-incorrect" 1 2 = (inr outs, w)
       /\ StronglySorted lex_lt (map point_of (records_of 0 outs)).
Proof.
  intros E.
  assert (Hm : valid_mode "only-incorrect") by (right; reflexivity).
  split; [exact Hm|].
  destruct (@records_in_grid_order demo_domain E "only-incorrect" 1 2 Hm)
    as (outs & w & Hrun & H).
  exists outs, w; split; [exact Hrun | exact (proj1 (H 0))].
Defined.

Lemma skip_leaves_no_effect_witness :
  let E := demo [Py.PyBool false] in
  let st := @Build_Locals demo_domain 0 [] in
  @num_examples_tested demo_domain st < 5
  /\ skips "only-correct" (@is_prediction_correct demo_domain E (Py.PyBool false))
     = true
  /\ @loop_body demo_domain E "only-correct" 5 4 0 (Py.PyBool false) st init_world
     = ((Continue, st),
        {| trace := [@EvIsPredictionCorrect demo_domain 0 (Py.PyBool false)];
           next_loader := 0%nat |}).
Proof.
  intros E st.
  assert (H1 : @num_examples_tested demo_domain st < 5) by (simpl; lia).
  assert (H2 : skips "only-correct"
                 (@is_prediction_correct demo_domain E (Py.PyBool false))
               = true) by reflexivity.
  split; [exact H1 | split; [exact H2|]].
  apply (@skip_leaves_no_effect demo_domain E "only-correct" 5 4 0
           (Py.PyBool false) st init_world H1 H2).
Defined.

Lemma filter_uses_identity_witness :
  let E := demo [Py.NpBool false] in
  let st := @Build_Locals demo_domain 0 [] in
  let r := @loop_body demo_domain E "only-correct" 1 1 0 (Py.NpBool false) st
             init_world in
  @num_examples_tested demo_domain st < 1
  /\ In (@EvToDevice demo_domain 0) (trace (snd r))
  /\ num_examples_tested (snd (fst r)) = 1.
Proof.
  intros E st r.
  assert (H1 : @num_examples_tested demo_domain st < 1) by (simpl; lia).
  split; [exact H1|].
  apply (@filter_uses_identity demo_domain E "only-correct" 1 1 0
           (Py.NpBool false) st init_world H1).
  reflexivity.
Defined.

Lemma nonpositive_quota_returns_empty_witness :
  valid_mode "only-incorrect"
  /\ 0 <= 0
  /\ @run_main demo_domain (demo [Py.PyBool false; Py.PyBool true])
       "only-incorrect" 0 4
     = (inr [],
        {| trace :=
             [@EvCreateTokenizerAndModel demo_domain "mnli-model";
              EvCreateDatasets "mnli";
              EvGetDataloader 0%nat eval_dataset 1 false;
              EvTrainer;
              EvModelCuda;
              EvNextBatch 0];
           next_loader := 1%nat |}).
Proof.
  assert (H1 : valid_mode "only-incorrect") by (right; reflexivity).
  assert (H2 : 0 <= 0) by lia.
  split; [exact H1 | split; [exact H2|]].
  apply (@nonpositive_quota_returns_empty demo_domain
           (demo [Py.PyBool false; Py.PyBool true]) "only-incorrect" 0 4 H1 H2).
Defined.

Lemma returned_length_witness :
  let E := demo [Py.PyBool true; Py.PyBool false; Py.PyNone; Py.PyBool true] in
  valid_mode "only-correct"
  /\ Z.of_nat (length (returned (@run_main demo_domain E "only-correct" 2 3)))
     = 7 * 8 * Z.max 0 3
       * Z.min (Z.max 0 2)
           (Z.of_nat (length (@passing demo_domain E "only-correct"))).
Proof.
  intros E.
  assert (Hm : valid_mode "only-correct") by (left; reflexivity).
  split; [exact Hm|].
  apply (@returned_length demo_domain E "only-correct" 2 3 Hm).
Defined.

Lemma larger_quota_appends_witness :
  let E := demo [Py.PyBool true; Py.PyBool true] in
  1 <= 2
  /\ exists more,
       map (fun o => (key_of o, correct o))
         (returned (@run_main demo_domain E "only-correct" 2 1))
       = map (fun o => (key_of o, correct o))
           (returned (@run_main demo_domain E "only-correct" 1 1))
         ++ more.
Proof.
  intros E.
  assert (Hn : 1 <= 2) by lia.
  split; [exact Hn|].
  apply (@larger_quota_appends demo_domain E "only-correct" 1 2 1 Hn).
Defined.

Lemma short_of_quota_walks_everything_witness :
  let E := demo [Py.PyBool false; Py.PyBool true; Py.PyBool false] in
  valid_mode "only-correct"
  /\ Z.of_nat (length (@passing demo_domain E "only-correct")) < 2
  /\ fetched_indices
       (trace (snd (@run_main demo_domain E "only-correct" 2 1)))
     = [0; 1; 2].
Proof.
  intros E.
  assert (Hm : valid_mode "only-correct") by (left; reflexivity).
  assert (Hlt : Z.of_nat (length (@passing demo_domain E "only-correct")) < 2)
    by (vm_compute; reflexivity).
  split; [exact Hm | split; [exact Hlt|]].
  destruct (@short_of_quota_walks_everything demo_domain E "only-correct" 2 1
              Hm Hlt) as (_ & Hf & _).
  rewrite Hf; reflexivity.
Defined.

Lemma generous_quota_sweeps_by_flag_witness :
  let E := demo [Py.PyBool true; Py.NpBool false] in
  Z.of_nat (length (@eval_batches demo_domain E)) <= 5
  /\ nth_error (@eval_batches demo_domain E) 1 = Some (Py.NpBool false)
  /\ In 1 (swept_indices
             (trace (snd (@run_main demo_domain E "only-correct" 5 1))))
  /\ In 1 (swept_indices
             (trace (snd (@run_main demo_domain E "only-incorrect" 5 1)))).
Proof.
  intros E.
  assert (Hn : Z.of_nat (length (@eval_batches demo_domain E)) <= 5)
    by (simpl; lia).
  assert (Hk : nth_error (@eval_batches demo_domain E) 1
               = Some (Py.NpBool false)) by reflexivity.
  split; [exact Hn | split; [exact Hk|]].
  destruct (@generous_quota_sweeps_by_flag demo_domain E 5 1 1
              (Py.NpBool false) Hn Hk) as [Hc Hi].
  split; [apply Hc | apply Hi]; discriminate.
Defined.

Lemma runs_never_share_names_witness :
  let E := demo [Py.PyBool true] in
  ("only-correct"%string, 1) <> ("only-correct"%string, 2)
  /\ Forall (fun name =>
               ~ In name
                   (map fst (saved (trace (snd (@run_main demo_domain E
                                                  "only-correct" 2 1))))))
       (map fst (saved (trace (snd (@run_main demo_domain E
                                      "only-correct" 1 1))))).
Proof.
  intros E.
  assert (Hne : ("only-correct"%string, 1) <> ("only-correct"%string, 2))
    by (intros H; discriminate).
  split; [exact Hne|].
  apply (@runs_never_share_names demo_domain E "only-correct" "only-correct"
           1 2 1 1 Hne).
Defined.

Lemma setup_made_once_witness :
  let E := demo [Py.PyBool true] in
  valid_mode "only-incorrect"
  /\ exists rest,
       trace (snd (@run_main demo_domain E "only-incorrect" 1 1))
       = [@EvCreateTokenizerAndModel demo_domain "mnli-model";
          EvCreateDatasets "mnli";
          EvGetDataloader 0%nat eval_dataset 1 false;
          EvTrainer;
          EvModelCuda] ++ rest
       /\ Forall (fun e => is_setup_event e = false) rest.
Proof.
  intros E.
  assert (Hm : valid_mode "only-incorrect") by (right; reflexivity).
  split; [exact Hm|].
  apply (@setup_made_once demo_domain E "only-incorrect" 1 1 Hm).
Defined.
